(** * Auction records of the name system: lib/covenants/auction.js

    A shallow embedding of the [Op] and [Auction] classes, with the
    properties of their phase machine, mutation log and binary encoding.

    Layout of the development:
    - [Bio]: the reader and writer primitives of the bufio codec;
    - [Outpoint]: the transaction-output reference;
    - the object types ([param], [op], [auction]) and the object store;
    - [Auction] and [Op]: the methods of the two classes;
    - [Driver]: replay of an undo log against a record;
    - the theorems. *)

From Stdlib Require Import ZArith List Lia Bool.
From stdpp Require Import base option list gmap.
Import ListNotations.

Local Open Scope Z_scope.

(** ** Results of fallible code *)

(** What a JavaScript [throw] carries, as far as this file tells them apart. *)
Inductive error : Type :=
| OutOfBounds   (* a read past the end of the data, a write that misses the size *)
| NonCanonical  (* a varint that is not in its shortest form *)
| BadOpType     (* [throw new Error('Bad op type.')] *)
| TypeError.    (* a method called on a value of the wrong shape *)

Inductive result (A : Type) : Type :=
| Ok (a : A)
| Err (e : error).
Arguments Ok {A} a.
Arguments Err {A} e.

#[global] Instance result_bind : MBind result := fun A B k r =>
  match r with
  | Ok a => k a
  | Err e => Err e
  end.

(** ** Bytes *)

Abbreviation bytes := (list Byte.byte).

#[global] Instance byte_eq_dec : EqDecision Byte.byte := Byte.byte_eq_dec.

Definition byte_of_Z (z : Z) : Byte.byte :=
  match Byte.of_N (Z.to_N (z mod 256)) with
  | Some b => b
  | None => Byte.x00
  end.

Definition Z_of_byte (b : Byte.byte) : Z := Z.of_N (Byte.to_N b).

(** ** The codec *)

(** Modelled from the spec: the reader and writer primitives of the package
    bufio, which is not among the sources: fixed-width unsigned integers,
    raw bytes, and byte strings prefixed by their length as a varint.
    The reader is the data that is left to read; the writer is the size it
    was allocated with and the bytes written so far. Integers are
    little-endian; a fixed-width write keeps the low bits of its argument.
    A static writer refuses to render unless exactly [size] bytes were
    written, which is how a wrong size prediction shows. *)
Module Bio.

Definition Reader : Type := bytes.

Record Writer : Type := mkWriter { size : Z; written : bytes }.

(** [bio.write(size)] and [bio.read(data)] *)
Definition write (size : Z) : Writer := mkWriter size [].
Definition read (data : bytes) : Reader := data.

Definition put (bs : bytes) (bw : Writer) : Writer :=
  mkWriter (size bw) (written bw ++ bs).

Definition render (bw : Writer) : result bytes :=
  if Z.of_nat (length (written bw)) =? size bw
  then Ok (written bw) else Err OutOfBounds.

(** [n] little-endian bytes of [v] *)
Fixpoint encodeLE (n : nat) (v : Z) : bytes :=
  match n with
  | O => []
  | S n' => byte_of_Z v :: encodeLE n' (v / 256)
  end.

Fixpoint decodeLE (bs : bytes) : Z :=
  match bs with
  | [] => 0
  | b :: bs' => Z_of_byte b + 256 * decodeLE bs'
  end.

Definition writeU8 (v : Z) : Writer -> Writer := put (encodeLE 1 v).
Definition writeU16 (v : Z) : Writer -> Writer := put (encodeLE 2 v).
Definition writeU32 (v : Z) : Writer -> Writer := put (encodeLE 4 v).
Definition writeU64 (v : Z) : Writer -> Writer := put (encodeLE 8 v).
Definition writeBytes (bs : bytes) : Writer -> Writer := put bs.
Definition writeHash (h : bytes) : Writer -> Writer := put h.

Definition sizeVarint (n : Z) : Z :=
  if n <? 253 then 1
  else if n <=? 65535 then 3
  else if n <=? 4294967295 then 5
  else 9.

Definition sizeVarlen (len : Z) : Z := sizeVarint len + len.

Definition writeVarint (n : Z) (bw : Writer) : Writer :=
  if n <? 253 then writeU8 n bw
  else if n <=? 65535 then writeU16 n (writeU8 253 bw)
  else if n <=? 4294967295 then writeU32 n (writeU8 254 bw)
  else writeU64 n (writeU8 255 bw).

Definition writeVarBytes (bs : bytes) (bw : Writer) : Writer :=
  writeBytes bs (writeVarint (Z.of_nat (length bs)) bw).

(** [br.readBytes(n)]: the next [n] bytes, or a throw when fewer are left *)
Definition readBytes (n : Z) (br : Reader) : result (bytes * Reader) :=
  if (0 <=? n) && (n <=? Z.of_nat (length br))
  then Ok (firstn (Z.to_nat n) br, skipn (Z.to_nat n) br)
  else Err OutOfBounds.

Definition readLE (n : Z) (br : Reader) : result (Z * Reader) :=
  '(bs, br') ← readBytes n br; Ok (decodeLE bs, br').

Definition readU8 : Reader -> result (Z * Reader) := readLE 1.
Definition readU16 : Reader -> result (Z * Reader) := readLE 2.
Definition readU32 : Reader -> result (Z * Reader) := readLE 4.
Definition readU64 : Reader -> result (Z * Reader) := readLE 8.
Definition readHash : Reader -> result (bytes * Reader) := readBytes 32.

Definition readVarint (br : Reader) : result (Z * Reader) :=
  '(tag, br1) ← readU8 br;
  if tag =? 255 then
    '(v, br2) ← readU64 br1;
    if v <=? 4294967295 then Err NonCanonical else Ok (v, br2)
  else if tag =? 254 then
    '(v, br2) ← readU32 br1;
    if v <=? 65535 then Err NonCanonical else Ok (v, br2)
  else if tag =? 253 then
    '(v, br2) ← readU16 br1;
    if v <? 253 then Err NonCanonical else Ok (v, br2)
  else Ok (tag, br1).

Definition readVarBytes (br : Reader) : result (bytes * Reader) :=
  '(n, br1) ← readVarint br; readBytes n br1.

End Bio.

(** ** Collaborators of the record *)

(** Modelled from the spec: the zero-hash constant of protocol/consensus,
    which is not among the sources: the canonical all-zero hash value. *)
Definition ZERO_HASH : bytes := repeat Byte.x00 32.

(** [const EMPTY = Buffer.alloc(0)] *)
Definition EMPTY : bytes := [].

(** Modelled from the spec: the Outpoint class of primitives/outpoint, which
    is not among the sources: a fixed-size reference (transaction id and
    output index) with a distinguished null value and a 36-byte encoding.
    The one place where auction.js changes an outpoint in place is
    [Auction.fromReader], on the outpoints of the auction it has just
    constructed; an outpoint that a record or an operation holds is never
    changed, so outpoints are values here. *)
Module Outpoint.

(** Modelled from the spec: a transaction id and an output index. *)
Record t : Type := mk { hash : bytes; index : Z }.

(** Modelled from the spec: [new Outpoint()], the distinguished null value. *)
Definition new : t := mk ZERO_HASH 4294967295.

(** Modelled from the spec: [isNull()], true of the null value only. *)
Definition isNull (o : t) : bool :=
  (index o =? 4294967295) && bool_decide (hash o = ZERO_HASH).

(** Modelled from the spec: the fixed encoding, 32 bytes of id and an
    unsigned 32-bit index. *)
Definition toWriter (o : t) (bw : Bio.Writer) : Bio.Writer :=
  Bio.writeU32 (index o) (Bio.writeHash (hash o) bw).

(** Modelled from the spec: the decoder of the fixed encoding. *)
Definition fromReader (br : Bio.Reader) : result (t * Bio.Reader) :=
  '(h, br1) ← Bio.readHash br;
  '(i, br2) ← Bio.readU32 br1;
  Ok (mk h i, br2).

(** the values of the type: a 32-byte id and an unsigned 32-bit index *)
Definition wf (o : t) : Prop :=
  length (hash o) = 32%nat /\ 0 <= index o < 2 ^ 32.

End Outpoint.

(** The chain parameters of covenants/rules, which is not among the
    sources: three height deltas, taken as a parameter. *)
Record Rules : Type := mkRules {
  BIDDING_PERIOD : Z;
  TOTAL_PERIOD : Z;
  RENEWAL_WINDOW : Z
}.

(** The unspent-output view handed to [isLocal]: all that is used of it is
    [getEntry], and of an entry its [height]. *)
Module CoinView.
Record entry : Type := mkEntry { height : Z }.
Record t : Type := mk { getEntry : Outpoint.t -> option entry }.
End CoinView.

(** ** Constants *)

Module states.
Definition BIDDING : Z := 0.
Definition REVEAL : Z := 1.
Definition CLOSED : Z := 2.
End states.

Module types.
Definition SET_AUCTION : Z := 0.
Definition SET_OWNER : Z := 1.
Definition SET_REVOKE : Z := 2.
Definition SET_DATA : Z := 3.
Definition SET_RENEWAL : Z := 4.
Definition SET_CLAIMED : Z := 5.
End types.

(** ** Objects and the store

    An [Auction] object is mutated in place and is referenced from the
    operations it logs, so auctions live in a store and are named by their
    location. The [params] array of an [Op] is untyped in the source; its
    elements here are the values that the mutators and the decoder put
    there, and a method that finds another shape fails with [TypeError].
    The [ops] and [undo] arrays belong to one auction and are never shared,
    so they are lists inside the object. *)

Abbreviation loc := positive.

Inductive param : Type :=
| PAuction (a : loc)
| POutpoint (o : Outpoint.t)
| PNum (n : Z)
| PData (d : option bytes)
| PBool (b : bool).

Record op : Type := mkOp { type : Z; params : list param }.

Record auction : Type := mkAuction {
  name : bytes;
  nameHash : bytes;
  owner : Outpoint.t;
  value : Z;
  revoke : Outpoint.t;
  data : option bytes;
  height : Z;
  renewal : Z;
  claimed : bool;
  (* Not serialized. *)
  ops : list op;
  undo : list op
}.

Abbreviation store := (gmap loc auction).

(** Field assignments, [this.f = v]. *)
Definition set_name (v : bytes) (a : auction) : auction :=
  mkAuction v (nameHash a) (owner a) (value a) (revoke a) (data a)
            (height a) (renewal a) (claimed a) (ops a) (undo a).
Definition set_nameHash (v : bytes) (a : auction) : auction :=
  mkAuction (name a) v (owner a) (value a) (revoke a) (data a)
            (height a) (renewal a) (claimed a) (ops a) (undo a).
Definition set_owner (v : Outpoint.t) (a : auction) : auction :=
  mkAuction (name a) (nameHash a) v (value a) (revoke a) (data a)
            (height a) (renewal a) (claimed a) (ops a) (undo a).
Definition set_value (v : Z) (a : auction) : auction :=
  mkAuction (name a) (nameHash a) (owner a) v (revoke a) (data a)
            (height a) (renewal a) (claimed a) (ops a) (undo a).
Definition set_revoke (v : Outpoint.t) (a : auction) : auction :=
  mkAuction (name a) (nameHash a) (owner a) (value a) v (data a)
            (height a) (renewal a) (claimed a) (ops a) (undo a).
Definition set_data (v : option bytes) (a : auction) : auction :=
  mkAuction (name a) (nameHash a) (owner a) (value a) (revoke a) v
            (height a) (renewal a) (claimed a) (ops a) (undo a).
Definition set_height (v : Z) (a : auction) : auction :=
  mkAuction (name a) (nameHash a) (owner a) (value a) (revoke a) (data a)
            v (renewal a) (claimed a) (ops a) (undo a).
Definition set_renewal (v : Z) (a : auction) : auction :=
  mkAuction (name a) (nameHash a) (owner a) (value a) (revoke a) (data a)
            (height a) v (claimed a) (ops a) (undo a).
Definition set_claimed (v : bool) (a : auction) : auction :=
  mkAuction (name a) (nameHash a) (owner a) (value a) (revoke a) (data a)
            (height a) (renewal a) v (ops a) (undo a).
(** [this.ops.push(o)] and [this.undo.push(o)] *)
Definition push_ops (o : op) (a : auction) : auction :=
  mkAuction (name a) (nameHash a) (owner a) (value a) (revoke a) (data a)
            (height a) (renewal a) (claimed a) (ops a ++ [o]) (undo a).
Definition push_undo (o : op) (a : auction) : auction :=
  mkAuction (name a) (nameHash a) (owner a) (value a) (revoke a) (data a)
            (height a) (renewal a) (claimed a) (ops a) (undo a ++ [o]).

(** ** class Auction

    A method that only reads [this] takes the object; a method that writes
    takes the location of [this] and the store. The mutators return [this]
    in the source, for chaining: here they return the store. *)
Module Auction.

(** [constructor()] *)
Definition new : auction :=
  {| name := EMPTY; nameHash := ZERO_HASH;
     owner := Outpoint.new; value := 0; revoke := Outpoint.new;
     data := None; height := 0; renewal := 0; claimed := false;
     ops := []; undo := [] |}.

#[global] Instance auction_inhabited : Inhabited auction := populate new.

(** [new this()]: a fresh object in the store *)
Definition alloc (a : auction) (σ : store) : loc * store :=
  let l := fresh (dom σ) in (l, <[l := a]> σ).

(** an assignment to the object at [l], which is in the store whenever a
    method runs on it *)
Definition modify (l : loc) (f : auction -> auction) (σ : store) : store :=
  <[l := f (σ !!! l)]> σ.

Definition inject (this : loc) (auction : loc) (σ : store) : store :=
  let σ := modify this (set_name (name (σ !!! auction))) σ in
  let σ := modify this (set_nameHash (nameHash (σ !!! auction))) σ in
  let σ := modify this (set_owner (owner (σ !!! auction))) σ in
  let σ := modify this (set_value (value (σ !!! auction))) σ in
  let σ := modify this (set_revoke (revoke (σ !!! auction))) σ in
  let σ := modify this (set_data (data (σ !!! auction))) σ in
  let σ := modify this (set_height (height (σ !!! auction))) σ in
  let σ := modify this (set_renewal (renewal (σ !!! auction))) σ in
  let σ := modify this (set_claimed (claimed (σ !!! auction))) σ in
  σ.

Definition clone (this : loc) (σ : store) : loc * store :=
  let '(copy, σ) := alloc new σ in
  (copy, inject copy this σ).

Definition isNull (this : auction) : bool :=
  Outpoint.isNull (owner this)
  && (value this =? 0)
  && Outpoint.isNull (revoke this)
  && bool_decide (data this = None)
  && (height this =? 0)
  && (renewal this =? 0)
  && negb (claimed this).

Definition setNull (this : loc) (σ : store) : store :=
  let σ := modify this (set_owner Outpoint.new) σ in
  let σ := modify this (set_value 0) σ in
  let σ := modify this (set_revoke Outpoint.new) σ in
  let σ := modify this (set_data None) σ in
  let σ := modify this (set_height 0) σ in
  let σ := modify this (set_renewal 0) σ in
  let σ := modify this (set_claimed false) σ in
  σ.

Section Phases.
Variable rules : Rules.

(** The [network] argument of the next five methods is never used. *)
Definition state (this : auction) (height' : Z) : Z :=
  if claimed this then states.CLOSED
  else if height' <? height this + BIDDING_PERIOD rules then states.BIDDING
  else if height' <? height this + TOTAL_PERIOD rules then states.REVEAL
  else states.CLOSED.

Definition isBidding (this : auction) (height' : Z) : bool :=
  state this height' =? states.BIDDING.

Definition isReveal (this : auction) (height' : Z) : bool :=
  state this height' =? states.REVEAL.

Definition isClosed (this : auction) (height' : Z) : bool :=
  state this height' =? states.CLOSED.

Definition isExpired (this : auction) (height' : Z) : bool :=
  (* Can only renew once we reach the closed state. *)
  if negb (isClosed this height') then false
  (* If we haven't been renewed in a year, start over. *)
  else if height' >=? renewal this + RENEWAL_WINDOW rules then true
  (* If nobody revealed their bids, start over. *)
  else if Outpoint.isNull (owner this) && Outpoint.isNull (revoke this)
  then true
  else false.
End Phases.

Definition isLocal (this : auction) (view : CoinView.t)
    (prevout : Outpoint.t) : bool :=
  match CoinView.getEntry view prevout with
  | None => true
  | Some entry =>
      if CoinView.height entry =? -1 then true
      else CoinView.height entry >=? height this
  end.

Definition setAuction (this : loc) (name' : bytes) (height' : Z)
    (σ : store) : store :=
  let σ := modify this (set_name name') σ in
  let σ :=
    match data (σ !!! this) with
    | Some d =>
        let σ := modify this
          (push_undo (mkOp types.SET_DATA [PData (Some d)])) σ in
        modify this (push_ops (mkOp types.SET_DATA [PData None])) σ
    | None => σ
    end in
  let '(copy, σ) := clone this σ in
  let σ := modify this (push_undo (mkOp types.SET_AUCTION [PAuction copy])) σ in
  let σ := modify this (push_ops (mkOp types.SET_AUCTION [PAuction this])) σ in
  let σ := setNull this σ in
  let σ := modify this (set_height height') σ in
  let σ := modify this (set_renewal height') σ in
  σ.

Definition setOwner (this : loc) (owner' : Outpoint.t) (value' : Z)
    (σ : store) : store :=
  let σ := modify this (push_undo (mkOp types.SET_OWNER
             [POutpoint (owner (σ !!! this)); PNum (value (σ !!! this))])) σ in
  let σ := modify this (push_ops (mkOp types.SET_OWNER
             [POutpoint owner'; PNum value'])) σ in
  let σ := modify this (set_owner owner') σ in
  let σ := modify this (set_value value') σ in
  σ.

Definition setRevoke (this : loc) (revoke' : Outpoint.t) (σ : store) : store :=
  let σ := modify this (push_undo (mkOp types.SET_REVOKE
             [POutpoint (revoke (σ !!! this))])) σ in
  let σ := modify this (push_ops (mkOp types.SET_REVOKE [POutpoint revoke'])) σ in
  let σ := modify this (set_revoke revoke') σ in
  σ.

Definition setData (this : loc) (data' : option bytes) (σ : store) : store :=
  let σ := modify this (push_undo (mkOp types.SET_DATA
             [PData (data (σ !!! this))])) σ in
  let σ := modify this (push_ops (mkOp types.SET_DATA [PData data'])) σ in
  let σ := modify this (set_data data') σ in
  σ.

Definition setRenewal (this : loc) (renewal' : Z) (σ : store) : store :=
  let σ := modify this (push_undo (mkOp types.SET_RENEWAL
             [PNum (renewal (σ !!! this))])) σ in
  let σ := modify this (push_ops (mkOp types.SET_RENEWAL [PNum renewal'])) σ in
  let σ := modify this (set_renewal renewal') σ in
  σ.

Definition setClaimed (this : loc) (claimed' : bool) (σ : store) : store :=
  let σ := modify this (push_undo (mkOp types.SET_CLAIMED
             [PBool (claimed (σ !!! this))])) σ in
  let σ := modify this (push_ops (mkOp types.SET_CLAIMED [PBool claimed'])) σ in
  let σ := modify this (set_claimed claimed') σ in
  σ.

Definition getSize (this : auction) : Z :=
  let size := 0 in
  let size := size + (1 + Z.of_nat (length (name this))) in
  let size := size + 1 in
  let size :=
    if negb (Outpoint.isNull (owner this)) then size + (36 + 8) else size in
  let size := size + 1 in
  let size :=
    if negb (Outpoint.isNull (revoke this)) then size + 36 else size in
  let size := size + 1 in
  let size :=
    match data this with
    | Some d => size + Bio.sizeVarlen (Z.of_nat (length d))
    | None => size
    end in
  let size := size + (4 + 4) in
  let size := size + 1 in
  size.

Definition toWriter (this : auction) (bw : Bio.Writer) : Bio.Writer :=
  let bw := Bio.writeU8 (Z.of_nat (length (name this))) bw in
  let bw := Bio.writeBytes (name this) bw in
  let bw :=
    if negb (Outpoint.isNull (owner this)) then
      let bw := Bio.writeU8 1 bw in
      let bw := Outpoint.toWriter (owner this) bw in
      Bio.writeU64 (value this) bw
    else Bio.writeU8 0 bw in
  let bw :=
    if negb (Outpoint.isNull (revoke this)) then
      let bw := Bio.writeU8 1 bw in
      Outpoint.toWriter (revoke this) bw
    else Bio.writeU8 0 bw in
  let bw :=
    match data this with
    | Some d =>
        let bw := Bio.writeU8 1 bw in
        Bio.writeVarBytes d bw
    | None => Bio.writeU8 0 bw
    end in
  let bw := Bio.writeU32 (height this) bw in
  let bw := Bio.writeU32 (renewal this) bw in
  let bw := Bio.writeU8 (if claimed this then 1 else 0) bw in
  bw.

Definition toRaw (this : auction) : result bytes :=
  let bw := Bio.write (getSize this) in
  Bio.render (toWriter this bw).

(** [static fromReader(br)]: the object it builds; the caller stores it *)
Definition fromReader (br : Bio.Reader) : result (auction * Bio.Reader) :=
  let auction := new in
  '(n, br) ← Bio.readU8 br;
  '(nm, br) ← Bio.readBytes n br;
  let auction := set_name nm auction in
  '(present, br) ← Bio.readU8 br;
  '(auction, br) ←
    (if present =? 1 then
       '(o, br) ← Outpoint.fromReader br;
       '(v, br) ← Bio.readU64 br;
       Ok (set_value v (set_owner o auction), br)
     else Ok (auction, br));
  '(present, br) ← Bio.readU8 br;
  '(auction, br) ←
    (if present =? 1 then
       '(o, br) ← Outpoint.fromReader br;
       Ok (set_revoke o auction, br)
     else Ok (auction, br));
  '(present, br) ← Bio.readU8 br;
  '(auction, br) ←
    (if present =? 1 then
       '(d, br) ← Bio.readVarBytes br;
       Ok (set_data (Some d) auction, br)
     else Ok (auction, br));
  '(h, br) ← Bio.readU32 br;
  let auction := set_height h auction in
  '(r, br) ← Bio.readU32 br;
  let auction := set_renewal r auction in
  '(c, br) ← Bio.readU8 br;
  let auction := set_claimed (c =? 1) auction in
  Ok (auction, br).

Definition fromRaw (data : bytes) : result auction :=
  let br := Bio.read data in
  '(auction, _) ← fromReader br; Ok auction.

End Auction.

(** ** class Op

    [getSize] and [toWriter] follow the reference of a [SET_AUCTION]
    operation into the store; [fromReader] stores the auction it decodes. *)
Module Op.

Definition getSize (σ : store) (this : op) : result Z :=
  if type this =? types.SET_AUCTION then
    match params this with
    | PAuction state :: _ =>
        match σ !! state with
        | Some a => Ok (1 + Auction.getSize a)
        | None => Err TypeError
        end
    | _ => Err TypeError
    end
  else if type this =? types.SET_OWNER then
    match params this with
    | POutpoint owner :: _ =>
        Ok (1 + 1 + (if negb (Outpoint.isNull owner) then 36 + 8 else 0))
    | _ => Err TypeError
    end
  else if type this =? types.SET_REVOKE then
    match params this with
    | POutpoint revoke :: _ =>
        Ok (1 + 1 + (if negb (Outpoint.isNull revoke) then 36 else 0))
    | _ => Err TypeError
    end
  else if type this =? types.SET_DATA then
    match params this with
    | PData (Some d) :: _ => Ok (1 + 1 + Bio.sizeVarlen (Z.of_nat (length d)))
    | PData None :: _ => Ok (1 + 1 + 0)
    | _ => Err TypeError
    end
  else if type this =? types.SET_RENEWAL then Ok (1 + 4)
  else if type this =? types.SET_CLAIMED then Ok (1 + 1)
  else Err BadOpType.

Definition toWriter (σ : store) (this : op) (bw : Bio.Writer)
    : result Bio.Writer :=
  let bw := Bio.writeU8 (type this) bw in
  if type this =? types.SET_AUCTION then
    match params this with
    | PAuction state :: _ =>
        match σ !! state with
        | Some a => Ok (Auction.toWriter a bw)
        | None => Err TypeError
        end
    | _ => Err TypeError
    end
  else if type this =? types.SET_OWNER then
    match params this with
    | POutpoint owner :: rest =>
        if negb (Outpoint.isNull owner) then
          match rest with
          | PNum value :: _ =>
              let bw := Bio.writeU8 1 bw in
              let bw := Outpoint.toWriter owner bw in
              Ok (Bio.writeU64 value bw)
          | _ => Err TypeError
          end
        else Ok (Bio.writeU8 0 bw)
    | _ => Err TypeError
    end
  else if type this =? types.SET_REVOKE then
    match params this with
    | POutpoint revoke :: _ =>
        if negb (Outpoint.isNull revoke) then
          let bw := Bio.writeU8 1 bw in
          Ok (Outpoint.toWriter revoke bw)
        else Ok (Bio.writeU8 0 bw)
    | _ => Err TypeError
    end
  else if type this =? types.SET_DATA then
    match params this with
    | PData (Some d) :: _ =>
        let bw := Bio.writeU8 1 bw in
        Ok (Bio.writeVarBytes d bw)
    | PData None :: _ => Ok (Bio.writeU8 0 bw)
    | _ => Err TypeError
    end
  else if type this =? types.SET_RENEWAL then
    match params this with
    | PNum renewal :: _ => Ok (Bio.writeU32 renewal bw)
    | _ => Err TypeError
    end
  else if type this =? types.SET_CLAIMED then
    match params this with
    | PBool claimed :: _ => Ok (Bio.writeU8 (if claimed then 1 else 0) bw)
    | _ => Err TypeError
    end
  else Err BadOpType.

Definition toRaw (σ : store) (this : op) : result bytes :=
  size ← getSize σ this;
  bw ← toWriter σ this (Bio.write size);
  Bio.render bw.

Definition fromReader (br : Bio.Reader) (σ : store)
    : result (op * Bio.Reader * store) :=
  '(type, br) ← Bio.readU8 br;
  if type =? types.SET_AUCTION then
    '(a, br) ← Auction.fromReader br;
    let '(state, σ) := Auction.alloc a σ in
    Ok (mkOp type [PAuction state], br, σ)
  else if type =? types.SET_OWNER then
    '(present, br) ← Bio.readU8 br;
    if present =? 1 then
      '(o, br) ← Outpoint.fromReader br;
      '(v, br) ← Bio.readU64 br;
      Ok (mkOp type [POutpoint o; PNum v], br, σ)
    else Ok (mkOp type [POutpoint Outpoint.new; PNum 0], br, σ)
  else if type =? types.SET_REVOKE then
    '(present, br) ← Bio.readU8 br;
    if present =? 1 then
      '(o, br) ← Outpoint.fromReader br;
      Ok (mkOp type [POutpoint o], br, σ)
    else Ok (mkOp type [POutpoint Outpoint.new], br, σ)
  else if type =? types.SET_DATA then
    '(present, br) ← Bio.readU8 br;
    if present =? 1 then
      '(d, br) ← Bio.readVarBytes br;
      Ok (mkOp type [PData (Some d)], br, σ)
    else Ok (mkOp type [PData None], br, σ)
  else if type =? types.SET_RENEWAL then
    '(r, br) ← Bio.readU32 br;
    Ok (mkOp type [PNum r], br, σ)
  else if type =? types.SET_CLAIMED then
    '(c, br) ← Bio.readU8 br;
    Ok (mkOp type [PBool (c =? 1)], br, σ)
  else Err BadOpType.

Definition fromRaw (data : bytes) (σ : store) : result (op * store) :=
  '(o, _, σ) ← fromReader (Bio.read data) σ; Ok (o, σ).

End Op.

(** ** Replaying a log *)

(** Modelled from the spec: the driver that replays the undo list when a
    block is disconnected, which is not in auction.js. Each variant's
    payload is exactly the fields it mutates, a [SET_AUCTION] entry means:
    overwrite every field from this snapshot, and the undo list is replayed
    in reverse order. *)
Module Driver.

(** Modelled from the spec: one entry applied to the record at [this]; the
    payload overwrites the fields of its variant, and a [SET_AUCTION] entry
    overwrites every field from the snapshot, as [inject] does. *)
Definition apply (this : loc) (o : op) (σ : store) : result store :=
  if type o =? types.SET_AUCTION then
    match params o with
    | PAuction state :: _ =>
        match σ !! state with
        | Some _ => Ok (Auction.inject this state σ)
        | None => Err TypeError
        end
    | _ => Err TypeError
    end
  else if type o =? types.SET_OWNER then
    match params o with
    | POutpoint owner' :: PNum value' :: _ =>
        Ok (Auction.modify this (set_value value')
              (Auction.modify this (set_owner owner') σ))
    | _ => Err TypeError
    end
  else if type o =? types.SET_REVOKE then
    match params o with
    | POutpoint revoke' :: _ => Ok (Auction.modify this (set_revoke revoke') σ)
    | _ => Err TypeError
    end
  else if type o =? types.SET_DATA then
    match params o with
    | PData data' :: _ => Ok (Auction.modify this (set_data data') σ)
    | _ => Err TypeError
    end
  else if type o =? types.SET_RENEWAL then
    match params o with
    | PNum renewal' :: _ => Ok (Auction.modify this (set_renewal renewal') σ)
    | _ => Err TypeError
    end
  else if type o =? types.SET_CLAIMED then
    match params o with
    | PBool claimed' :: _ => Ok (Auction.modify this (set_claimed claimed') σ)
    | _ => Err TypeError
    end
  else Err BadOpType.

(** Modelled from the spec: the entries of a log applied in order. *)
Fixpoint replay (this : loc) (log : list op) (σ : store) : result store :=
  match log with
  | [] => Ok σ
  | o :: log' => σ' ← apply this o σ; replay this log' σ'
  end.

(** Modelled from the spec: the undo entries replayed in reverse order. *)
Definition disconnect (this : loc) (undo : list op) (σ : store)
    : result store :=
  replay this (rev undo) σ.

End Driver.

(** ** Sequences of mutator calls *)

Inductive call : Type :=
| CallSetAuction (name : bytes) (height : Z)
| CallSetOwner (owner : Outpoint.t) (value : Z)
| CallSetRevoke (revoke : Outpoint.t)
| CallSetData (data : option bytes)
| CallSetRenewal (renewal : Z)
| CallSetClaimed (claimed : bool).

Definition exec (this : loc) (c : call) (σ : store) : store :=
  match c with
  | CallSetAuction n h => Auction.setAuction this n h σ
  | CallSetOwner o v => Auction.setOwner this o v σ
  | CallSetRevoke o => Auction.setRevoke this o σ
  | CallSetData d => Auction.setData this d σ
  | CallSetRenewal r => Auction.setRenewal this r σ
  | CallSetClaimed b => Auction.setClaimed this b σ
  end.

Definition run (this : loc) (cs : list call) (σ : store) : store :=
  fold_left (fun σ c => exec this c σ) cs σ.

(** ** Vocabulary of the statements *)

(** The persisted fields of a record. *)
Definition persisted (a : auction) :
    bytes * Outpoint.t * Z * Outpoint.t * option bytes * Z * Z * bool :=
  (name a, owner a, value a, revoke a, data a, height a, renewal a, claimed a).

(** The records of the data model: a name of at most 255 bytes, an unsigned
    64-bit value that is zero under a null owner, unsigned 32-bit heights,
    data whose length a varint can carry. *)
Record auction_wf (a : auction) : Prop := mk_auction_wf {
  wf_name : (length (name a) <= 255)%nat;
  wf_owner : Outpoint.wf (owner a);
  wf_value : 0 <= value a < 2 ^ 64;
  wf_null_owner : Outpoint.isNull (owner a) = true -> value a = 0;
  wf_revoke : Outpoint.wf (revoke a);
  wf_data : forall d, data a = Some d -> Z.of_nat (length d) < 2 ^ 64;
  wf_height : 0 <= height a < 2 ^ 32;
  wf_renewal : 0 <= renewal a < 2 ^ 32
}.

(** The six variants with a payload of the data model. *)
Inductive op_wf (σ : store) : op -> Prop :=
| wf_SET_AUCTION (l : loc) (a : auction) :
    σ !! l = Some a -> auction_wf a ->
    op_wf σ (mkOp types.SET_AUCTION [PAuction l])
| wf_SET_OWNER (o : Outpoint.t) (v : Z) :
    Outpoint.wf o -> 0 <= v < 2 ^ 64 ->
    (Outpoint.isNull o = true -> v = 0) ->
    op_wf σ (mkOp types.SET_OWNER [POutpoint o; PNum v])
| wf_SET_REVOKE (o : Outpoint.t) :
    Outpoint.wf o ->
    op_wf σ (mkOp types.SET_REVOKE [POutpoint o])
| wf_SET_DATA (d : option bytes) :
    (forall bs, d = Some bs -> Z.of_nat (length bs) < 2 ^ 64) ->
    op_wf σ (mkOp types.SET_DATA [PData d])
| wf_SET_RENEWAL (r : Z) :
    0 <= r < 2 ^ 32 ->
    op_wf σ (mkOp types.SET_RENEWAL [PNum r])
| wf_SET_CLAIMED (b : bool) :
    op_wf σ (mkOp types.SET_CLAIMED [PBool b]).

(** Equality of payloads: an auction is compared by the persisted fields of
    the object it refers to, anything else by value. *)
Definition param_same (σ : store) (p : param) (σ' : store) (p' : param)
    : Prop :=
  match p, p' with
  | PAuction l, PAuction l' =>
      exists a a', σ !! l = Some a /\ σ' !! l' = Some a' /\
                   persisted a' = persisted a
  | PAuction _, _ | _, PAuction _ => False
  | _, _ => p' = p
  end.

Definition op_same (σ : store) (o : op) (σ' : store) (o' : op) : Prop :=
  type o' = type o /\
  Forall2 (fun p p' => param_same σ p σ' p') (params o) (params o').

(** The bytes of a varint, of an outpoint and of a record. *)
Definition varint_bytes (n : Z) : bytes :=
  if n <? 253 then Bio.encodeLE 1 n
  else if n <=? 65535 then Bio.encodeLE 1 253 ++ Bio.encodeLE 2 n
  else if n <=? 4294967295 then Bio.encodeLE 1 254 ++ Bio.encodeLE 4 n
  else Bio.encodeLE 1 255 ++ Bio.encodeLE 8 n.

Definition outpoint_bytes (o : Outpoint.t) : bytes :=
  Outpoint.hash o ++ Bio.encodeLE 4 (Outpoint.index o).

Definition auction_bytes (a : auction) : bytes :=
  Bio.encodeLE 1 (Z.of_nat (length (name a))) ++ name a
  ++ (if negb (Outpoint.isNull (owner a))
      then Bio.encodeLE 1 1 ++ outpoint_bytes (owner a)
           ++ Bio.encodeLE 8 (value a)
      else Bio.encodeLE 1 0)
  ++ (if negb (Outpoint.isNull (revoke a))
      then Bio.encodeLE 1 1 ++ outpoint_bytes (revoke a)
      else Bio.encodeLE 1 0)
  ++ (match data a with
      | Some d => Bio.encodeLE 1 1 ++ varint_bytes (Z.of_nat (length d)) ++ d
      | None => Bio.encodeLE 1 0
      end)
  ++ Bio.encodeLE 4 (height a) ++ Bio.encodeLE 4 (renewal a)
  ++ Bio.encodeLE 1 (if claimed a then 1 else 0).

(** What a decoder builds from the bytes of [a]: a new object with the
    persisted fields of [a]. *)
Definition decoded (a : auction) : auction :=
  mkAuction (name a) ZERO_HASH (owner a) (value a) (revoke a) (data a)
            (height a) (renewal a) (claimed a) [] [].

(** The fields that the undo log is to bring back, the name apart. *)
Definition reversible (a : auction) :
    Outpoint.t * Z * Outpoint.t * option bytes * Z * Z * bool :=
  (owner a, value a, revoke a, data a, height a, renewal a, claimed a).

(** The name that the first [setAuction] of a sequence passes, or [n] when
    the sequence has none. *)
Fixpoint first_name (cs : list call) (n : bytes) : bytes :=
  match cs with
  | [] => n
  | CallSetAuction n' _ :: _ => n'
  | _ :: cs' => first_name cs' n
  end.

(** The undo entries that a sequence of calls has added to the log of the
    record, which had [before] entries. *)
Definition accumulated (before : auction) (after : auction) : list op :=
  drop (length (undo before)) (undo after).

(** One call read at the level of the object: the entries it logs, the
    object it leaves, the copy it stores. [exec_after] below relates this
    reading to the mutators. *)
Definition undo_of (c : call) (copy : loc) (r : auction) : list op :=
  match c with
  | CallSetAuction _ _ =>
      match data r with
      | Some d => [mkOp types.SET_DATA [PData (Some d)]]
      | None => []
      end ++ [mkOp types.SET_AUCTION [PAuction copy]]
  | CallSetOwner _ _ =>
      [mkOp types.SET_OWNER [POutpoint (owner r); PNum (value r)]]
  | CallSetRevoke _ => [mkOp types.SET_REVOKE [POutpoint (revoke r)]]
  | CallSetData _ => [mkOp types.SET_DATA [PData (data r)]]
  | CallSetRenewal _ => [mkOp types.SET_RENEWAL [PNum (renewal r)]]
  | CallSetClaimed _ => [mkOp types.SET_CLAIMED [PBool (claimed r)]]
  end.

Definition ops_of (c : call) (this : loc) (r : auction) : list op :=
  match c with
  | CallSetAuction _ _ =>
      match data r with
      | Some d => [mkOp types.SET_DATA [PData None]]
      | None => []
      end ++ [mkOp types.SET_AUCTION [PAuction this]]
  | CallSetOwner o v => [mkOp types.SET_OWNER [POutpoint o; PNum v]]
  | CallSetRevoke o => [mkOp types.SET_REVOKE [POutpoint o]]
  | CallSetData d => [mkOp types.SET_DATA [PData d]]
  | CallSetRenewal n => [mkOp types.SET_RENEWAL [PNum n]]
  | CallSetClaimed b => [mkOp types.SET_CLAIMED [PBool b]]
  end.

Definition after (c : call) (this copy : loc) (r : auction) : auction :=
  let os := ops r ++ ops_of c this r in
  let us := undo r ++ undo_of c copy r in
  match c with
  | CallSetAuction n h =>
      mkAuction n (nameHash r) Outpoint.new 0 Outpoint.new None h h false os us
  | CallSetOwner o v =>
      mkAuction (name r) (nameHash r) o v (revoke r) (data r)
                (height r) (renewal r) (claimed r) os us
  | CallSetRevoke o =>
      mkAuction (name r) (nameHash r) (owner r) (value r) o (data r)
                (height r) (renewal r) (claimed r) os us
  | CallSetData d =>
      mkAuction (name r) (nameHash r) (owner r) (value r) (revoke r) d
                (height r) (renewal r) (claimed r) os us
  | CallSetRenewal n =>
      mkAuction (name r) (nameHash r) (owner r) (value r) (revoke r) (data r)
                (height r) n (claimed r) os us
  | CallSetClaimed b =>
      mkAuction (name r) (nameHash r) (owner r) (value r) (revoke r) (data r)
                (height r) (renewal r) b os us
  end.

(** the copy that [clone] stores when the record already has the name [n] *)
Definition snapshot (n : bytes) (r : auction) : auction :=
  mkAuction n (nameHash r) (owner r) (value r) (revoke r) (data r)
            (height r) (renewal r) (claimed r) [] [].

Definition stored (c : call) (copy : loc) (r : auction) (σ : store) : store :=
  match c with
  | CallSetAuction n _ => <[copy := snapshot n r]> σ
  | _ => σ
  end.

(** ** Sample data

    The scenario of the end-to-end test: an empty record, the name
    example, a cycle that starts at height 100, an owner with value 5000,
    and the periods 5, 15 and 100. *)

Definition example_rules : Rules := mkRules 5 15 100.

Definition example_name : bytes :=
  [Byte.x65; Byte.x78; Byte.x61; Byte.x6d; Byte.x70; Byte.x6c; Byte.x65].

Definition outpointA : Outpoint.t := Outpoint.mk (repeat Byte.x01 32) 0.

Definition example_store : store := {[ 1%positive := Auction.new ]}.

Definition example_calls : list call :=
  [CallSetAuction example_name 100; CallSetOwner outpointA 5000].

Definition example_record : auction :=
  mkAuction example_name ZERO_HASH outpointA 5000 Outpoint.new None
            100 100 false [] [].

Definition example_view (h : Z) : CoinView.t :=
  CoinView.mk (fun _ => Some (CoinView.mkEntry h)).

(** ** Vocabulary of the further properties *)

(** The calls whose arguments are values of the data model. *)
Definition call_wf (c : call) : Prop :=
  match c with
  | CallSetAuction n h => (length n <= 255)%nat /\ 0 <= h < 2 ^ 32
  | CallSetOwner o v =>
      Outpoint.wf o /\ 0 <= v < 2 ^ 64 /\ (Outpoint.isNull o = true -> v = 0)
  | CallSetRevoke o => Outpoint.wf o
  | CallSetData d => forall bs, d = Some bs -> Z.of_nat (length bs) < 2 ^ 64
  | CallSetRenewal n => 0 <= n < 2 ^ 32
  | CallSetClaimed _ => True
  end.

(** A decoder whose result does not depend on the bytes that follow the
    ones it reads. *)
Definition stable {A : Type} (rd : Bio.Reader -> result (A * Bio.Reader))
    : Prop :=
  forall (p : bytes) (v : A) (r ext : bytes),
    rd p = Ok (v, r) -> rd (p ++ ext) = Ok (v, r ++ ext).

(** ** More sample data *)

(** a store that holds the scenario's record *)
Definition example_store2 : store := {[ 1%positive := example_record ]}.

(** a store that holds an empty record and the scenario's record *)
Definition example_store3 : store :=
  <[ 2%positive := example_record ]> example_store.

(** the scenario's record with one entry in its [ops] *)
Definition example_record_logged : auction :=
  push_ops (mkOp types.SET_CLAIMED [PBool true]) example_record.

Definition example_op : op :=
  mkOp types.SET_OWNER [POutpoint outpointA; PNum 5000].

Definition example_op_raw : bytes :=
  Bio.encodeLE 1 1 ++ Bio.encodeLE 1 1 ++ outpoint_bytes outpointA
  ++ Bio.encodeLE 8 5000.

(* ================================================================== *)
(** * Properties *)

(** ** The phase machine *)

Section PhaseProperties.
Variable rules : Rules.

Lemma state_unclaimed (this : auction) (h : Z) :
  claimed this = false ->
  Auction.state rules this h =
    if h <? height this + BIDDING_PERIOD rules then states.BIDDING
    else if h <? height this + TOTAL_PERIOD rules then states.REVEAL
    else states.CLOSED.
Proof. intros Hc. unfold Auction.state. now rewrite Hc. Qed.

Lemma state_range (this : auction) (h : Z) :
  states.BIDDING <= Auction.state rules this h <= states.CLOSED.
Proof.
  unfold Auction.state, states.BIDDING, states.REVEAL, states.CLOSED.
  repeat case_match; lia.
Qed.

(** C6. With a bidding period shorter than the total period, an unclaimed
    record is in BIDDING below [height + BIDDING_PERIOD], in REVEAL from
    there up to [height + TOTAL_PERIOD], and CLOSED from there on; the
    phase never decreases as the query height grows; a claimed record is
    CLOSED at every height. *)
Theorem state_phases (this : auction) (h : Z) :
  BIDDING_PERIOD rules < TOTAL_PERIOD rules ->
  (claimed this = false ->
     (h < height this + BIDDING_PERIOD rules ->
        Auction.state rules this h = states.BIDDING) /\
     (height this + BIDDING_PERIOD rules <= h < height this + TOTAL_PERIOD rules ->
        Auction.state rules this h = states.REVEAL) /\
     (h >= height this + TOTAL_PERIOD rules ->
        Auction.state rules this h = states.CLOSED)) /\
  (forall h' : Z, h <= h' ->
     Auction.state rules this h <= Auction.state rules this h') /\
  (claimed this = true -> Auction.state rules this h = states.CLOSED).
Proof.
  intros HBT. split; [|split].
  - intros Hc. rewrite (state_unclaimed _ _ Hc).
    repeat split; intros Hh.
    + destruct (Z.ltb_spec h (height this + BIDDING_PERIOD rules)); [reflexivity|lia].
    + destruct (Z.ltb_spec h (height this + BIDDING_PERIOD rules)); [lia|].
      destruct (Z.ltb_spec h (height this + TOTAL_PERIOD rules)); [reflexivity|lia].
    + destruct (Z.ltb_spec h (height this + BIDDING_PERIOD rules)); [lia|].
      destruct (Z.ltb_spec h (height this + TOTAL_PERIOD rules)); [lia|reflexivity].
  - intros h' Hle. unfold Auction.state.
    destruct (claimed this); [lia|].
    unfold states.BIDDING, states.REVEAL, states.CLOSED.
    destruct (Z.ltb_spec h (height this + BIDDING_PERIOD rules));
      destruct (Z.ltb_spec h' (height this + BIDDING_PERIOD rules));
      destruct (Z.ltb_spec h (height this + TOTAL_PERIOD rules));
      destruct (Z.ltb_spec h' (height this + TOTAL_PERIOD rules)); lia.
  - intros Hc. unfold Auction.state. now rewrite Hc.
Qed.

(** C7. [isExpired] is false whenever the record is not CLOSED at the
    height; when it is CLOSED, [isExpired] is true exactly when the height
    has reached [renewal + RENEWAL_WINDOW] or owner and revoke are both
    null. *)
Theorem isExpired_spec (this : auction) (h : Z) :
  (Auction.state rules this h <> states.CLOSED ->
     Auction.isExpired rules this h = false) /\
  (Auction.state rules this h = states.CLOSED ->
     (Auction.isExpired rules this h = true <->
        h >= renewal this + RENEWAL_WINDOW rules \/
        (Outpoint.isNull (owner this) = true /\
         Outpoint.isNull (revoke this) = true))).
Proof.
  unfold Auction.isExpired, Auction.isClosed. split.
  - intros Hn. apply Z.eqb_neq in Hn. now rewrite Hn.
  - intros Hc. rewrite Hc, Z.eqb_refl. cbn [negb].
    destruct (Z.geb_spec h (renewal this + RENEWAL_WINDOW rules)) as [Hge|Hlt].
    + split; [intros _; left; lia | reflexivity].
    + destruct (Outpoint.isNull (owner this)), (Outpoint.isNull (revoke this));
        cbn [andb]; split; intros H; try reflexivity; try discriminate;
        try (right; split; reflexivity);
        destruct H as [H|[H1 H2]]; try lia; discriminate.
Qed.

End PhaseProperties.

(** C8. [isLocal] is true when the view has no entry for the reference and
    when the entry's height is the sentinel -1; otherwise it is true exactly
    when the entry's height is at least the record's height. *)
Theorem isLocal_spec (this : auction) (view : CoinView.t) (prevout : Outpoint.t) :
  (CoinView.getEntry view prevout = None ->
     Auction.isLocal this view prevout = true) /\
  (forall e, CoinView.getEntry view prevout = Some e ->
     CoinView.height e = -1 ->
     Auction.isLocal this view prevout = true) /\
  (forall e, CoinView.getEntry view prevout = Some e ->
     CoinView.height e <> -1 ->
     (Auction.isLocal this view prevout = true <->
        CoinView.height e >= height this)).
Proof.
  unfold Auction.isLocal. repeat split.
  - intros ->. reflexivity.
  - intros e -> ->. reflexivity.
  - rewrite H. apply Z.eqb_neq in H0. rewrite H0.
    intros Hg. apply Z.geb_le in Hg. lia.
  - rewrite H. apply Z.eqb_neq in H0. rewrite H0.
    intros Hg. apply Z.geb_le. lia.
Qed.

(** ** The codec: what is written is read back *)

Section Codec.

Lemma Z_of_byte_range (b : Byte.byte) : 0 <= Z_of_byte b < 256.
Proof.
  unfold Z_of_byte. pose proof (Byte.to_N_bounded b). lia.
Qed.

Lemma Z_of_byte_of_Z (z : Z) : Z_of_byte (byte_of_Z z) = z mod 256.
Proof.
  unfold Z_of_byte, byte_of_Z.
  pose proof (Z.mod_pos_bound z 256 ltac:(lia)) as Hr.
  destruct (Byte.of_N (Z.to_N (z mod 256))) as [b|] eqn:Hb.
  - apply Byte.to_of_N in Hb. rewrite Hb. lia.
  - apply Byte.of_N_None_iff in Hb. lia.
Qed.

Lemma length_encodeLE (n : nat) (v : Z) : length (Bio.encodeLE n v) = n.
Proof.
  revert v. induction n as [|n IH]; intros v; cbn; [reflexivity|].
  now rewrite IH.
Qed.

Lemma decodeLE_encodeLE (n : nat) (v : Z) :
  Bio.decodeLE (Bio.encodeLE n v) = v mod 256 ^ Z.of_nat n.
Proof.
  revert v. induction n as [|n IH]; intros v.
  - cbn. now rewrite Z.mod_1_r.
  - cbn [Bio.encodeLE Bio.decodeLE]. rewrite IH, Z_of_byte_of_Z.
    rewrite Nat2Z.inj_succ, Z.pow_succ_r by lia.
    rewrite Z.rem_mul_r by lia. reflexivity.
Qed.

Lemma readBytes_app (bs rest : bytes) :
  Bio.readBytes (Z.of_nat (length bs)) (bs ++ rest) = Ok (bs, rest).
Proof.
  unfold Bio.readBytes.
  rewrite length_app, Nat2Z.id.
  destruct (Z.leb_spec 0 (Z.of_nat (length bs))); [|lia].
  destruct (Z.leb_spec (Z.of_nat (length bs))
              (Z.of_nat (length bs + length rest))); [|lia].
  cbn [andb]. rewrite take_app_length, drop_app_length. reflexivity.
Qed.

Lemma readLE_encodeLE (n : nat) (v : Z) (rest : bytes) :
  0 <= v < 256 ^ Z.of_nat n ->
  Bio.readLE (Z.of_nat n) (Bio.encodeLE n v ++ rest) = Ok (v, rest).
Proof.
  intros Hv. unfold Bio.readLE.
  rewrite <- (length_encodeLE n v) at 1.
  rewrite readBytes_app. cbn.
  rewrite decodeLE_encodeLE, Z.mod_small by exact Hv. reflexivity.
Qed.

Lemma readU8_cons (t : Byte.byte) (rest : bytes) :
  Bio.readU8 (t :: rest) = Ok (Z_of_byte t, rest).
Proof.
  unfold Bio.readU8, Bio.readLE, Bio.readBytes.
  destruct (Z.leb_spec 1 (Z.of_nat (length (t :: rest))));
    [|cbn [length] in *; lia].
  change (Z.to_nat 1) with 1%nat. cbn. rewrite take_0, drop_0. cbn.
  f_equal. f_equal. lia.
Qed.

Lemma readU8_encode (v : Z) (rest : bytes) :
  0 <= v < 256 -> Bio.readU8 (Bio.encodeLE 1 v ++ rest) = Ok (v, rest).
Proof. intros Hv. apply (readLE_encodeLE 1). cbn. lia. Qed.

Lemma readU16_encode (v : Z) (rest : bytes) :
  0 <= v < 2 ^ 16 -> Bio.readU16 (Bio.encodeLE 2 v ++ rest) = Ok (v, rest).
Proof. intros Hv. apply (readLE_encodeLE 2). cbn in *. lia. Qed.

Lemma readU32_encode (v : Z) (rest : bytes) :
  0 <= v < 2 ^ 32 -> Bio.readU32 (Bio.encodeLE 4 v ++ rest) = Ok (v, rest).
Proof. intros Hv. apply (readLE_encodeLE 4). cbn in *. lia. Qed.

Lemma readU64_encode (v : Z) (rest : bytes) :
  0 <= v < 2 ^ 64 -> Bio.readU64 (Bio.encodeLE 8 v ++ rest) = Ok (v, rest).
Proof. intros Hv. apply (readLE_encodeLE 8). cbn in *. lia. Qed.

Lemma put_put (a b : bytes) (bw : Bio.Writer) :
  Bio.put b (Bio.put a bw) = Bio.put (a ++ b) bw.
Proof. unfold Bio.put. cbn. now rewrite app_assoc. Qed.

Lemma writeVarint_put (n : Z) (bw : Bio.Writer) :
  Bio.writeVarint n bw = Bio.put (varint_bytes n) bw.
Proof.
  unfold Bio.writeVarint, varint_bytes,
    Bio.writeU8, Bio.writeU16, Bio.writeU32, Bio.writeU64.
  repeat case_match; rewrite ?put_put; reflexivity.
Qed.

Lemma length_varint_bytes (n : Z) :
  Z.of_nat (length (varint_bytes n)) = Bio.sizeVarint n.
Proof.
  unfold varint_bytes, Bio.sizeVarint.
  repeat case_match; rewrite ?length_app, !length_encodeLE; reflexivity.
Qed.

Lemma readVarint_bytes (n : Z) (rest : bytes) :
  0 <= n < 2 ^ 64 ->
  Bio.readVarint (varint_bytes n ++ rest) = Ok (n, rest).
Proof.
  intros Hn. unfold Bio.readVarint, varint_bytes.
  destruct (Z.ltb_spec n 253).
  { rewrite readU8_encode by lia. cbn [mbind result_bind].
    destruct (Z.eqb_spec n 255); [lia|].
    destruct (Z.eqb_spec n 254); [lia|].
    destruct (Z.eqb_spec n 253); [lia|]. reflexivity. }
  destruct (Z.leb_spec n 65535).
  { rewrite <- app_assoc, readU8_encode by lia. cbn [mbind result_bind].
    change (253 =? 255) with false. change (253 =? 254) with false.
    change (253 =? 253) with true. cbn match.
    rewrite readU16_encode by (cbn; lia). cbn [mbind result_bind].
    destruct (Z.ltb_spec n 253); [lia|]. reflexivity. }
  destruct (Z.leb_spec n 4294967295).
  { rewrite <- app_assoc, readU8_encode by lia. cbn [mbind result_bind].
    change (254 =? 255) with false. change (254 =? 254) with true.
    cbn match.
    rewrite readU32_encode by (cbn; lia). cbn [mbind result_bind].
    destruct (Z.leb_spec n 65535); [lia|]. reflexivity. }
  rewrite <- app_assoc, readU8_encode by lia. cbn [mbind result_bind].
  change (255 =? 255) with true. cbn match.
  rewrite readU64_encode by exact Hn. cbn [mbind result_bind].
  destruct (Z.leb_spec n 4294967295); [lia|]. reflexivity.
Qed.

Lemma readVarBytes_bytes (d rest : bytes) :
  Z.of_nat (length d) < 2 ^ 64 ->
  Bio.readVarBytes (varint_bytes (Z.of_nat (length d)) ++ d ++ rest)
    = Ok (d, rest).
Proof.
  intros Hd. unfold Bio.readVarBytes.
  rewrite readVarint_bytes by lia. cbn [mbind result_bind].
  apply readBytes_app.
Qed.

End Codec.

(** ** The encoding of a record *)

Section AuctionEncoding.

Lemma isNull_new (o : Outpoint.t) :
  Outpoint.isNull o = true -> o = Outpoint.new.
Proof.
  unfold Outpoint.isNull. intros H.
  apply andb_prop in H as [Hi Hh].
  apply Z.eqb_eq in Hi. apply bool_decide_eq_true in Hh.
  destruct o as [h i]. cbn in *. now subst.
Qed.

Lemma Outpoint_toWriter_put (o : Outpoint.t) (bw : Bio.Writer) :
  Outpoint.toWriter o bw = Bio.put (outpoint_bytes o) bw.
Proof.
  unfold Outpoint.toWriter, Bio.writeU32, Bio.writeHash, outpoint_bytes.
  apply put_put.
Qed.

Lemma length_outpoint_bytes (o : Outpoint.t) :
  Outpoint.wf o -> length (outpoint_bytes o) = 36%nat.
Proof.
  intros [Hh _]. unfold outpoint_bytes.
  now rewrite length_app, length_encodeLE, Hh.
Qed.

Lemma Outpoint_fromReader_bytes (o : Outpoint.t) (rest : bytes) :
  Outpoint.wf o ->
  Outpoint.fromReader (outpoint_bytes o ++ rest) = Ok (o, rest).
Proof.
  intros [Hh Hi]. unfold Outpoint.fromReader, outpoint_bytes, Bio.readHash.
  rewrite <- app_assoc.
  change 32 with (Z.of_nat 32). rewrite <- Hh, readBytes_app.
  cbn [mbind result_bind].
  rewrite readU32_encode by exact Hi. cbn [mbind result_bind].
  now destruct o.
Qed.

Lemma Auction_toWriter_put (a : auction) (bw : Bio.Writer) :
  Auction.toWriter a bw = Bio.put (auction_bytes a) bw.
Proof.
  unfold Auction.toWriter, auction_bytes, Bio.writeVarBytes,
    Bio.writeU8, Bio.writeU32, Bio.writeU64, Bio.writeBytes.
  cbv zeta.
  destruct (negb (Outpoint.isNull (owner a)));
    destruct (negb (Outpoint.isNull (revoke a)));
    destruct (data a);
    rewrite ?Outpoint_toWriter_put, ?writeVarint_put, !put_put,
      <- ?app_assoc; reflexivity.
Qed.

Lemma length_auction_bytes (a : auction) :
  Outpoint.wf (owner a) -> Outpoint.wf (revoke a) ->
  Z.of_nat (length (auction_bytes a)) = Auction.getSize a.
Proof.
  intros Ho Hr. unfold auction_bytes, Auction.getSize, Bio.sizeVarlen.
  cbv zeta.
  pose proof (length_outpoint_bytes _ Ho).
  pose proof (length_outpoint_bytes _ Hr).
  destruct (negb (Outpoint.isNull (owner a)));
    destruct (negb (Outpoint.isNull (revoke a)));
    destruct (data a) as [d|];
    rewrite ?length_app, ?length_encodeLE, ?Nat2Z.inj_add,
      ?length_varint_bytes; try pose proof (length_varint_bytes (Z.of_nat (length d))); lia.
Qed.

End AuctionEncoding.

(** One step of a decoder run on bytes that are known. *)
Ltac rd_simpl :=
  repeat progress
    (cbn [mbind result_bind negb];
     change (0 =? 1) with false; change (1 =? 1) with true;
     cbv beta iota);
  rewrite <- ?app_assoc.

Section AuctionRoundTrip.

Lemma Auction_fromReader_bytes (a : auction) (rest : bytes) :
  auction_wf a ->
  Auction.fromReader (auction_bytes a ++ rest) = Ok (decoded a, rest).
Proof.
  intros [Hn Ho Hv Hnull Hr Hd Hh Hre].
  pose proof (isNull_new (owner a)) as Hown.
  pose proof (isNull_new (revoke a)) as Hrev.
  unfold Auction.fromReader, auction_bytes, decoded. cbv zeta.
  rd_simpl.
  rewrite readU8_encode by lia. rd_simpl.
  rewrite readBytes_app. rd_simpl.
  destruct (Outpoint.isNull (owner a)) eqn:Eo; rd_simpl;
    rewrite readU8_encode by lia; rd_simpl;
    [ | rewrite Outpoint_fromReader_bytes by exact Ho; rd_simpl;
        rewrite readU64_encode by exact Hv; rd_simpl ].
  all: destruct (Outpoint.isNull (revoke a)) eqn:Er; rd_simpl;
    rewrite readU8_encode by lia; rd_simpl;
    [ | rewrite Outpoint_fromReader_bytes by exact Hr; rd_simpl ].
  all: destruct (data a) as [d|] eqn:Ed; rd_simpl;
    rewrite readU8_encode by lia; rd_simpl;
    [ rewrite readVarBytes_bytes by (apply Hd; reflexivity); rd_simpl | ].
  all: rewrite readU32_encode by exact Hh; rd_simpl;
    rewrite readU32_encode by exact Hre; rd_simpl;
    rewrite readU8_encode by (destruct (claimed a); lia); rd_simpl;
    rewrite ?Hown, ?Hrev, ?Hnull by reflexivity;
    destruct (claimed a); reflexivity.
Qed.

Lemma Auction_toRaw_bytes (a : auction) :
  Outpoint.wf (owner a) -> Outpoint.wf (revoke a) ->
  Auction.toRaw a = Ok (auction_bytes a).
Proof.
  intros Ho Hr. unfold Auction.toRaw, Bio.render. cbv zeta.
  rewrite Auction_toWriter_put.
  unfold Bio.put, Bio.write. cbn [Bio.written Bio.size app].
  rewrite length_auction_bytes by assumption.
  now rewrite Z.eqb_refl.
Qed.

Lemma auction_bytes_persisted (a b : auction) :
  persisted a = persisted b -> auction_bytes a = auction_bytes b.
Proof.
  unfold persisted, auction_bytes. intros [= -> -> -> -> -> -> -> ->].
  reflexivity.
Qed.

(** C4. For a record of the data model, [fromRaw] of [toRaw] succeeds and
    gives a record with the same name, owner, value, revoke, data, height,
    renewal and claimed; the bytes depend on these eight fields only, so
    nameHash, ops and undo are not part of the encoding, and the decoded
    record has them as a new record has. *)
Theorem Auction_roundtrip (r : auction) :
  auction_wf r ->
  exists raw r',
    Auction.toRaw r = Ok raw /\
    Auction.fromRaw raw = Ok r' /\
    persisted r' = persisted r /\
    nameHash r' = ZERO_HASH /\ ops r' = [] /\ undo r' = [] /\
    (forall r2, persisted r2 = persisted r -> Auction.toRaw r2 = Ok raw).
Proof.
  intros Hwf. exists (auction_bytes r), (decoded r).
  pose proof (wf_owner _ Hwf) as Ho. pose proof (wf_revoke _ Hwf) as Hr.
  split; [now apply Auction_toRaw_bytes|].
  split.
  { unfold Auction.fromRaw, Bio.read. cbv zeta.
    rewrite <- (app_nil_r (auction_bytes r)).
    rewrite Auction_fromReader_bytes by exact Hwf. reflexivity. }
  repeat split.
  intros r2 Hp.
  rewrite <- (auction_bytes_persisted _ _ Hp).
  unfold persisted in Hp. injection Hp as _ Ho2 _ Hr2 _ _ _ _.
  apply Auction_toRaw_bytes; congruence.
Qed.

End AuctionRoundTrip.

(** ** The encoding of an operation *)

Ltac op_simpl :=
  unfold types.SET_AUCTION, types.SET_OWNER, types.SET_REVOKE,
    types.SET_DATA, types.SET_RENEWAL, types.SET_CLAIMED;
  cbn [type params Z.eqb Pos.eqb]; rd_simpl.

Ltac wr_simpl :=
  unfold Bio.writeVarBytes, Bio.writeU8, Bio.writeU32, Bio.writeU64,
    Bio.writeBytes;
  rewrite ?Auction_toWriter_put, ?Outpoint_toWriter_put, ?writeVarint_put,
    ?put_put, <- ?app_assoc.

Section OpEncoding.

Lemma render_put (bs : bytes) :
  Bio.render (Bio.put bs (Bio.write (Z.of_nat (length bs)))) = Ok bs.
Proof.
  unfold Bio.render, Bio.put, Bio.write. cbn.
  now rewrite Z.eqb_refl.
Qed.

Lemma op_same_refl_values (σ σ' : store) (t : Z) (ps : list param) :
  Forall (fun p => forall l, p <> PAuction l) ps ->
  op_same σ (mkOp t ps) σ' (mkOp t ps).
Proof.
  intros Hps. split; [reflexivity|]. cbn.
  induction Hps as [|p ps Hp _ IH]; constructor; [|exact IH].
  destruct p; cbn; try reflexivity. now destruct (Hp a).
Qed.

(** The bytes of a well-formed operation: [toWriter] appends them,
    [getSize] is their number, [fromReader] reads the operation back. *)
Lemma Op_codec (σ : store) (o : op) :
  op_wf σ o ->
  exists bs,
    (forall bw, Op.toWriter σ o bw = Ok (Bio.put bs bw)) /\
    Op.getSize σ o = Ok (Z.of_nat (length bs)) /\
    (forall rest σ', exists o' σ'',
        Op.fromReader (bs ++ rest) σ' = Ok (o', rest, σ'') /\
        op_same σ o σ'' o').
Proof.
  intros Hwf. destruct Hwf as [l a Hl Ha | o v Ho Hv Hnull | o Ho | d Hd | r Hr | b].
  - (* SET_AUCTION *)
    exists (Bio.encodeLE 1 0 ++ auction_bytes a). split; [|split].
    + intros bw. unfold Op.toWriter. cbv zeta. op_simpl. rewrite Hl.
      wr_simpl. reflexivity.
    + unfold Op.getSize. op_simpl. rewrite Hl. f_equal.
      rewrite length_app, length_encodeLE, Nat2Z.inj_add.
      rewrite length_auction_bytes by apply Ha. lia.
    + intros rest σ'. unfold Op.fromReader. rd_simpl.
      rewrite readU8_encode by lia. op_simpl.
      rewrite Auction_fromReader_bytes by exact Ha. rd_simpl.
      unfold Auction.alloc. cbv zeta.
      eexists _, _. split; [reflexivity|].
      split; [reflexivity|]. cbn. constructor; [|constructor].
      exists a, (decoded a). rewrite lookup_insert_eq. auto.
  - (* SET_OWNER *)
    pose proof (isNull_new o) as Hnew.
    destruct (Outpoint.isNull o) eqn:Eo.
    + exists (Bio.encodeLE 1 1 ++ Bio.encodeLE 1 0). split; [|split].
      * intros bw. unfold Op.toWriter. cbv zeta. op_simpl. rewrite Eo.
        rd_simpl. wr_simpl. reflexivity.
      * unfold Op.getSize. op_simpl. rewrite Eo. reflexivity.
      * intros rest σ'. unfold Op.fromReader. rd_simpl.
        rewrite readU8_encode by lia. op_simpl.
        rewrite readU8_encode by lia. op_simpl.
        eexists _, _. split; [reflexivity|].
        rewrite Hnew, Hnull by reflexivity.
        apply op_same_refl_values. repeat constructor; discriminate.
    + exists (Bio.encodeLE 1 1 ++ Bio.encodeLE 1 1 ++ outpoint_bytes o
              ++ Bio.encodeLE 8 v). split; [|split].
      * intros bw. unfold Op.toWriter. cbv zeta. op_simpl. rewrite Eo.
        rd_simpl. wr_simpl. reflexivity.
      * unfold Op.getSize. op_simpl. rewrite Eo. rd_simpl. f_equal.
        rewrite !length_app, !length_encodeLE, length_outpoint_bytes by exact Ho.
        reflexivity.
      * intros rest σ'. unfold Op.fromReader. rd_simpl.
        rewrite readU8_encode by lia. op_simpl.
        rewrite readU8_encode by lia. op_simpl.
        rewrite Outpoint_fromReader_bytes by exact Ho. rd_simpl.
        rewrite readU64_encode by exact Hv. rd_simpl.
        eexists _, _. split; [reflexivity|].
        apply op_same_refl_values. repeat constructor; discriminate.
  - (* SET_REVOKE *)
    pose proof (isNull_new o) as Hnew.
    destruct (Outpoint.isNull o) eqn:Eo.
    + exists (Bio.encodeLE 1 2 ++ Bio.encodeLE 1 0). split; [|split].
      * intros bw. unfold Op.toWriter. cbv zeta. op_simpl. rewrite Eo.
        rd_simpl. wr_simpl. reflexivity.
      * unfold Op.getSize. op_simpl. rewrite Eo. reflexivity.
      * intros rest σ'. unfold Op.fromReader. rd_simpl.
        rewrite readU8_encode by lia. op_simpl.
        rewrite readU8_encode by lia. op_simpl.
        eexists _, _. split; [reflexivity|].
        rewrite Hnew by reflexivity.
        apply op_same_refl_values. repeat constructor; discriminate.
    + exists (Bio.encodeLE 1 2 ++ Bio.encodeLE 1 1 ++ outpoint_bytes o).
      split; [|split].
      * intros bw. unfold Op.toWriter. cbv zeta. op_simpl. rewrite Eo.
        rd_simpl. wr_simpl. reflexivity.
      * unfold Op.getSize. op_simpl. rewrite Eo. rd_simpl. f_equal.
        rewrite !length_app, !length_encodeLE, length_outpoint_bytes by exact Ho.
        reflexivity.
      * intros rest σ'. unfold Op.fromReader. rd_simpl.
        rewrite readU8_encode by lia. op_simpl.
        rewrite readU8_encode by lia. op_simpl.
        rewrite Outpoint_fromReader_bytes by exact Ho. rd_simpl.
        eexists _, _. split; [reflexivity|].
        apply op_same_refl_values. repeat constructor; discriminate.
  - (* SET_DATA *)
    destruct d as [d|].
    + exists (Bio.encodeLE 1 3 ++ Bio.encodeLE 1 1
              ++ varint_bytes (Z.of_nat (length d)) ++ d).
      split; [|split].
      * intros bw. unfold Op.toWriter. cbv zeta. op_simpl.
        wr_simpl. reflexivity.
      * unfold Op.getSize. op_simpl. f_equal. unfold Bio.sizeVarlen.
        rewrite !length_app, !length_encodeLE, !Nat2Z.inj_add,
          length_varint_bytes. lia.
      * intros rest σ'. unfold Op.fromReader. rd_simpl.
        rewrite readU8_encode by lia. op_simpl.
        rewrite readU8_encode by lia. op_simpl.
        rewrite readVarBytes_bytes by (apply Hd; reflexivity). rd_simpl.
        eexists _, _. split; [reflexivity|].
        apply op_same_refl_values. repeat constructor; discriminate.
    + exists (Bio.encodeLE 1 3 ++ Bio.encodeLE 1 0). split; [|split].
      * intros bw. unfold Op.toWriter. cbv zeta. op_simpl.
        wr_simpl. reflexivity.
      * unfold Op.getSize. op_simpl. reflexivity.
      * intros rest σ'. unfold Op.fromReader. rd_simpl.
        rewrite readU8_encode by lia. op_simpl.
        rewrite readU8_encode by lia. op_simpl.
        eexists _, _. split; [reflexivity|].
        apply op_same_refl_values. repeat constructor; discriminate.
  - (* SET_RENEWAL *)
    exists (Bio.encodeLE 1 4 ++ Bio.encodeLE 4 r). split; [|split].
    + intros bw. unfold Op.toWriter. cbv zeta. op_simpl.
      wr_simpl. reflexivity.
    + unfold Op.getSize. op_simpl. reflexivity.
    + intros rest σ'. unfold Op.fromReader. rd_simpl.
      rewrite readU8_encode by lia. op_simpl.
      rewrite readU32_encode by exact Hr. op_simpl.
      eexists _, _. split; [reflexivity|].
      apply op_same_refl_values. repeat constructor; discriminate.
  - (* SET_CLAIMED *)
    exists (Bio.encodeLE 1 5 ++ Bio.encodeLE 1 (if b then 1 else 0)).
    split; [|split].
    + intros bw. unfold Op.toWriter. cbv zeta. op_simpl.
      wr_simpl. reflexivity.
    + unfold Op.getSize. op_simpl. reflexivity.
    + intros rest σ'. unfold Op.fromReader. rd_simpl.
      rewrite readU8_encode by lia. op_simpl.
      rewrite readU8_encode by (destruct b; lia). op_simpl.
      eexists _, _. split; [reflexivity|].
      replace ((if b then 1 else 0) =? 1) with b by (now destruct b).
      apply op_same_refl_values. repeat constructor; discriminate.
Qed.

Lemma Op_toRaw_bytes (σ : store) (o : op) (bs : bytes) :
  (forall bw, Op.toWriter σ o bw = Ok (Bio.put bs bw)) ->
  Op.getSize σ o = Ok (Z.of_nat (length bs)) ->
  Op.toRaw σ o = Ok bs.
Proof.
  intros Hw Hs. unfold Op.toRaw. rewrite Hs. cbn [mbind result_bind].
  rewrite Hw. cbn [mbind result_bind]. apply render_put.
Qed.

(** C5. For each of the six variants and every payload of the data model
    (null and non-null outpoints, absent and present data, both flags),
    [fromRaw] of [toRaw] succeeds and gives an operation with the same
    type and the same payload. *)
Theorem Op_roundtrip (σ σ' : store) (o : op) :
  op_wf σ o ->
  exists raw o' σ'',
    Op.toRaw σ o = Ok raw /\
    Op.fromRaw raw σ' = Ok (o', σ'') /\
    op_same σ o σ'' o'.
Proof.
  intros Hwf. destruct (Op_codec σ o Hwf) as (bs & Hw & Hs & Hrd).
  destruct (Hrd [] σ') as (o' & σ'' & Hr & Hsame).
  exists bs, o', σ''. split; [now apply Op_toRaw_bytes|].
  split; [|exact Hsame].
  unfold Op.fromRaw, Bio.read. rewrite app_nil_r in Hr. now rewrite Hr.
Qed.

(** C9. Decoding an operation whose first byte is not one of the tags 0
    to 5 fails with the bad-type error, whatever follows the byte and
    whatever the store holds: no operation comes out. *)
Theorem Op_fromRaw_bad_type (t : Byte.byte) (rest : bytes) (σ : store) :
  ~ (0 <= Z_of_byte t <= 5) ->
  Op.fromRaw (t :: rest) σ = Err BadOpType /\
  Op.fromReader (Bio.read (t :: rest)) σ = Err BadOpType.
Proof.
  intros Ht.
  assert (Hrd : Op.fromReader (Bio.read (t :: rest)) σ = Err BadOpType).
  { unfold Op.fromReader, Bio.read. rewrite readU8_cons.
    cbn [mbind result_bind]. cbv beta iota.
    unfold types.SET_AUCTION, types.SET_OWNER, types.SET_REVOKE,
      types.SET_DATA, types.SET_RENEWAL, types.SET_CLAIMED.
    destruct (Z.eqb_spec (Z_of_byte t) 0); [lia|].
    destruct (Z.eqb_spec (Z_of_byte t) 1); [lia|].
    destruct (Z.eqb_spec (Z_of_byte t) 2); [lia|].
    destruct (Z.eqb_spec (Z_of_byte t) 3); [lia|].
    destruct (Z.eqb_spec (Z_of_byte t) 4); [lia|].
    destruct (Z.eqb_spec (Z_of_byte t) 5); [lia|].
    reflexivity. }
  split; [|exact Hrd].
  unfold Op.fromRaw. now rewrite Hrd.
Qed.

(** C10. For a record whose outpoints have the fixed size, [toWriter]
    appends exactly [getSize] bytes and [toRaw] gives that many; for an
    operation with one of the six tags and a payload of the data model,
    [getSize] returns a number, [toWriter] appends that many bytes and
    [toRaw] gives that many. *)
Theorem getSize_exact (σ : store) (a : auction) (o : op) :
  Outpoint.wf (owner a) -> Outpoint.wf (revoke a) -> op_wf σ o ->
  (forall bw,
      Z.of_nat (length (Bio.written (Auction.toWriter a bw)))
      = Z.of_nat (length (Bio.written bw)) + Auction.getSize a) /\
  (exists raw, Auction.toRaw a = Ok raw /\
               Z.of_nat (length raw) = Auction.getSize a) /\
  (exists n, Op.getSize σ o = Ok n /\
     (forall bw, exists bw', Op.toWriter σ o bw = Ok bw' /\
        Z.of_nat (length (Bio.written bw'))
        = Z.of_nat (length (Bio.written bw)) + n) /\
     (exists raw, Op.toRaw σ o = Ok raw /\ Z.of_nat (length raw) = n)).
Proof.
  intros Ho Hr Hwf. split; [|split].
  - intros bw. rewrite Auction_toWriter_put.
    unfold Bio.put. cbn [Bio.written].
    rewrite length_app, Nat2Z.inj_add, length_auction_bytes by assumption.
    reflexivity.
  - exists (auction_bytes a).
    split; [now apply Auction_toRaw_bytes | now apply length_auction_bytes].
  - destruct (Op_codec σ o Hwf) as (bs & Hw & Hs & _).
    exists (Z.of_nat (length bs)). split; [exact Hs|]. split.
    + intros bw. exists (Bio.put bs bw). split; [apply Hw|].
      unfold Bio.put. cbn [Bio.written].
      now rewrite length_app, Nat2Z.inj_add.
    + exists bs. split; [now apply Op_toRaw_bytes | reflexivity].
Qed.

End OpEncoding.

(** ** The store under the mutators *)

(** Assignments to an object whose fields are known. *)
Ltac record_simpl :=
  cbv [set_name set_nameHash set_owner set_value set_revoke set_data
       set_height set_renewal set_claimed push_ops push_undo
       name nameHash owner value revoke data height renewal claimed
       ops undo].

Section StoreLemmas.

Lemma modify_lookup (l : loc) (f : auction -> auction) (a : auction)
    (σ : store) :
  σ !! l = Some a -> Auction.modify l f σ = <[l := f a]> σ.
Proof.
  intros H. unfold Auction.modify.
  now rewrite (lookup_total_correct _ _ _ H).
Qed.

Lemma modify_insert (l : loc) (f : auction -> auction) (a : auction)
    (σ : store) :
  Auction.modify l f (<[l := a]> σ) = <[l := f a]> σ.
Proof.
  unfold Auction.modify.
  now rewrite lookup_total_insert_eq, insert_insert_eq.
Qed.

Lemma modify_insert_under (l l' : loc) (f : auction -> auction)
    (a b : auction) (σ : store) :
  l <> l' ->
  Auction.modify l f (<[l' := b]> (<[l := a]> σ))
  = <[l' := b]> (<[l := f a]> σ).
Proof.
  intros Hne. unfold Auction.modify.
  rewrite lookup_total_insert_ne by congruence.
  rewrite lookup_total_insert_eq.
  rewrite (insert_insert_ne _ l l') by exact Hne.
  now rewrite insert_insert_eq.
Qed.

Lemma fresh_not_live (σ : store) (l : loc) (a : auction) :
  σ !! l = Some a -> fresh (dom σ) <> l.
Proof.
  intros H E. pose proof (is_fresh (dom σ)) as Hf.
  rewrite E in Hf. apply Hf, elem_of_dom. eauto.
Qed.

Lemma fresh_lookup (σ : store) : σ !! fresh (dom σ) = None.
Proof. apply not_elem_of_dom, is_fresh. Qed.

Lemma inject_eq (this src : loc) (a s : auction) (σ : store) :
  this <> src -> σ !! this = Some a -> σ !! src = Some s ->
  Auction.inject this src σ
  = <[this := mkAuction (name s) (nameHash s) (owner s) (value s)
                (revoke s) (data s) (height s) (renewal s) (claimed s)
                (ops a) (undo a)]> σ.
Proof.
  intros Hne Ha Hs. unfold Auction.inject. cbv zeta.
  rewrite (modify_lookup _ _ _ _ Ha).
  rewrite !modify_insert.
  rewrite !lookup_total_insert_ne by exact Hne.
  rewrite (lookup_total_correct _ _ _ Hs).
  reflexivity.
Qed.

Lemma clone_eq (this : loc) (a : auction) (σ : store) :
  σ !! this = Some a ->
  Auction.clone this σ
  = (fresh (dom σ), <[fresh (dom σ) := snapshot (name a) a]> σ).
Proof.
  intros Ha. unfold Auction.clone, Auction.alloc. cbv zeta.
  pose proof (fresh_not_live _ _ _ Ha) as Hne.
  f_equal.
  rewrite (inject_eq _ this Auction.new a).
  - rewrite insert_insert_eq. reflexivity.
  - exact Hne.
  - apply lookup_insert_eq.
  - rewrite lookup_insert_ne by exact Hne. exact Ha.
Qed.

Lemma setAuction_after (this : loc) (n : bytes) (h : Z) (r : auction)
    (σ : store) :
  σ !! this = Some r ->
  Auction.setAuction this n h σ
  = <[this := after (CallSetAuction n h) this (fresh (dom σ)) r]>
      (<[fresh (dom σ) := snapshot n r]> σ).
Proof.
  intros Hr. pose proof (fresh_not_live _ _ _ Hr) as Hne.
  unfold Auction.setAuction. cbv zeta.
  rewrite (modify_lookup _ _ _ _ Hr).
  rewrite lookup_total_insert_eq.
  change (data (set_name n r)) with (data r).
  assert (Hdom : forall x, dom (<[this := x]> σ) = dom σ)
    by (intros x; apply dom_insert_lookup_L; eauto).
  destruct r as [rn rh ro rv rr rd rhe rre rc ros rus].
  cbn [data]. destruct rd as [d|].
  + rewrite !modify_insert.
    erewrite clone_eq by apply lookup_insert_eq.
    rewrite Hdom. cbv beta iota.
    unfold Auction.setNull. cbv zeta.
    rewrite !modify_insert_under by congruence.
    rewrite (insert_insert_ne _ this) by congruence.
    unfold after, snapshot, undo_of, ops_of. record_simpl.
    rewrite <- !app_assoc. reflexivity.
  + erewrite clone_eq by apply lookup_insert_eq.
    rewrite Hdom. cbv beta iota.
    unfold Auction.setNull. cbv zeta.
    rewrite !modify_insert_under by congruence.
    rewrite (insert_insert_ne _ this) by congruence.
    unfold after, snapshot, undo_of, ops_of. record_simpl.
    reflexivity.
Qed.

(** Each mutator, and so each call, is its reading on the object. *)
Lemma exec_after (this : loc) (c : call) (r : auction) (σ : store) :
  σ !! this = Some r ->
  exec this c σ
  = <[this := after c this (fresh (dom σ)) r]>
      (stored c (fresh (dom σ)) r σ).
Proof.
  intros Hr. pose proof (fresh_not_live _ _ _ Hr) as Hne.
  destruct c as [n h | o v | o | d | n | b]; cbn [exec stored after].
  - now apply setAuction_after.
  - unfold Auction.setOwner. cbv zeta.
    rewrite (lookup_total_correct _ _ _ Hr), (modify_lookup _ _ _ _ Hr).
    rewrite !modify_insert. reflexivity.
  - unfold Auction.setRevoke. cbv zeta.
    rewrite (lookup_total_correct _ _ _ Hr), (modify_lookup _ _ _ _ Hr).
    rewrite !modify_insert. reflexivity.
  - unfold Auction.setData. cbv zeta.
    rewrite (lookup_total_correct _ _ _ Hr), (modify_lookup _ _ _ _ Hr).
    rewrite !modify_insert. reflexivity.
  - unfold Auction.setRenewal. cbv zeta.
    rewrite (lookup_total_correct _ _ _ Hr), (modify_lookup _ _ _ _ Hr).
    rewrite !modify_insert. reflexivity.
  - unfold Auction.setClaimed. cbv zeta.
    rewrite (lookup_total_correct _ _ _ Hr), (modify_lookup _ _ _ _ Hr).
    rewrite !modify_insert. reflexivity.
Qed.

End StoreLemmas.

(** ** The log of a call *)

Section CallLog.
Variable this : loc.

Lemma exec_this (c : call) (r : auction) (σ : store) :
  σ !! this = Some r ->
  exec this c σ !! this = Some (after c this (fresh (dom σ)) r).
Proof. intros Hr. rewrite (exec_after _ _ _ _ Hr). apply lookup_insert_eq. Qed.

Lemma exec_frame (c : call) (r : auction) (σ : store) (l : loc) :
  σ !! this = Some r -> l <> this -> is_Some (σ !! l) ->
  exec this c σ !! l = σ !! l.
Proof.
  intros Hr Hne [b Hb]. rewrite (exec_after _ _ _ _ Hr).
  rewrite lookup_insert_ne by congruence.
  destruct c; cbn [stored]; try reflexivity.
  rewrite lookup_insert_ne; [reflexivity|].
  apply (fresh_not_live _ _ _ Hb).
Qed.

Lemma exec_copy (n : bytes) (h : Z) (r : auction) (σ : store) :
  σ !! this = Some r ->
  exec this (CallSetAuction n h) σ !! fresh (dom σ) = Some (snapshot n r).
Proof.
  intros Hr. rewrite (exec_after _ _ _ _ Hr).
  rewrite lookup_insert_ne by (intros E; apply (fresh_not_live _ _ _ Hr); congruence).
  cbn [stored]. apply lookup_insert_eq.
Qed.

Lemma run_cons (c : call) (cs : list call) (σ : store) :
  run this (c :: cs) σ = run this cs (exec this c σ).
Proof. reflexivity. Qed.

Lemma run_frame (cs : list call) (σ : store) (r : auction) :
  σ !! this = Some r ->
  is_Some (run this cs σ !! this) /\
  (forall l, l <> this -> is_Some (σ !! l) -> run this cs σ !! l = σ !! l).
Proof.
  revert σ r. induction cs as [|c cs IH]; intros σ r Hr.
  - cbn. eauto.
  - rewrite run_cons.
    destruct (IH _ _ (exec_this c r σ Hr)) as [Hlive Hfr].
    split; [exact Hlive|]. intros l Hne Hl.
    rewrite Hfr; [now apply (exec_frame c r)|exact Hne|].
    rewrite (exec_frame c r) by assumption. exact Hl.
Qed.

Lemma length_ops_of (c : call) (r : auction) (l : loc) :
  length (ops_of c l r)
  = match c, data r with CallSetAuction _ _, Some _ => 2%nat | _, _ => 1%nat end.
Proof. destruct c; cbn; try reflexivity. now destruct (data r). Qed.

Lemma length_undo_of (c : call) (r : auction) (l : loc) :
  length (undo_of c l r)
  = match c, data r with CallSetAuction _ _, Some _ => 2%nat | _, _ => 1%nat end.
Proof. destruct c; cbn; try reflexivity. now destruct (data r). Qed.

Lemma ops_after (c : call) (r : auction) (l : loc) :
  ops (after c this l r) = ops r ++ ops_of c this r.
Proof. now destruct c. Qed.

Lemma undo_after (c : call) (r : auction) (l : loc) :
  undo (after c this l r) = undo r ++ undo_of c l r.
Proof. now destruct c. Qed.

Lemma run_lengths (cs : list call) (σ : store) (r : auction) :
  σ !! this = Some r ->
  length (ops r) = length (undo r) ->
  length (ops (run this cs σ !!! this))
  = length (undo (run this cs σ !!! this)).
Proof.
  revert σ r. induction cs as [|c cs IH]; intros σ r Hr Hlen.
  - cbn. now rewrite (lookup_total_correct _ _ _ Hr).
  - rewrite run_cons. apply (IH _ _ (exec_this c r σ Hr)).
    rewrite ops_after, undo_after, !length_app.
    rewrite length_ops_of, length_undo_of. lia.
Qed.

(** C3, as the code has it. A mutator call appends the same number of
    entries to [ops] and to [undo]: two when the call is [setAuction] on a
    record whose data is not null, one in every other case. So a call
    keeps the two lengths equal, and so does every sequence of calls. *)
Theorem mutator_log_lengths (c : call) (cs : list call) (r : auction)
    (σ : store) :
  σ !! this = Some r ->
  let r' := exec this c σ !!! this in
  let k := match c, data r with
           | CallSetAuction _ _, Some _ => 2%nat
           | _, _ => 1%nat
           end in
  length (ops r') = (length (ops r) + k)%nat /\
  length (undo r') = (length (undo r) + k)%nat /\
  (length (ops r) = length (undo r) ->
     length (ops r') = length (undo r') /\
     length (ops (run this cs σ !!! this))
     = length (undo (run this cs σ !!! this))).
Proof.
  intros Hr r' k. subst r' k.
  rewrite (lookup_total_correct _ _ _ (exec_this c r σ Hr)).
  rewrite ops_after, undo_after, !length_app.
  rewrite length_ops_of, length_undo_of.
  split; [reflexivity|]. split; [reflexivity|].
  intros Hlen. split; [lia|]. now apply (run_lengths cs σ r).
Qed.

(** C2, as the code has it. The last undo entry that [setAuction] pushes
    is a [SET_AUCTION] entry that refers to a new object, distinct from
    the record; the object has the owner, value, revoke, data, height,
    renewal, claimed and nameHash that the record had before the call,
    and as its name the name passed to the call; no later mutator call on
    the record changes the object. *)
Theorem setAuction_snapshot (n : bytes) (h : Z) (cs : list call)
    (r : auction) (σ : store) :
  σ !! this = Some r ->
  let σ1 := Auction.setAuction this n h σ in
  exists copy snap,
    last (undo (σ1 !!! this))
    = Some (mkOp types.SET_AUCTION [PAuction copy]) /\
    copy <> this /\ σ !! copy = None /\
    σ1 !! copy = Some snap /\
    name snap = n /\ nameHash snap = nameHash r /\
    reversible snap = reversible r /\
    ops snap = [] /\ undo snap = [] /\
    run this cs σ1 !! copy = Some snap.
Proof.
  intros Hr σ1. subst σ1.
  exists (fresh (dom σ)), (snapshot n r).
  pose proof (fresh_not_live _ _ _ Hr) as Hne.
  rewrite (setAuction_after _ _ _ _ _ Hr).
  set (r1 := after (CallSetAuction n h) this (fresh (dom σ)) r).
  set (σ0 := <[fresh (dom σ) := snapshot n r]> σ).
  assert (Hthis : <[this := r1]> σ0 !! this = Some r1)
    by apply lookup_insert_eq.
  assert (Hcopy : <[this := r1]> σ0 !! fresh (dom σ) = Some (snapshot n r)).
  { rewrite lookup_insert_ne by congruence. apply lookup_insert_eq. }
  destruct (run_frame cs _ _ Hthis) as [_ Hfr].
  split.
  { rewrite (lookup_total_correct _ _ _ Hthis). unfold r1.
    rewrite undo_after. cbn [undo_of]. rewrite app_assoc. apply last_snoc. }
  split; [exact Hne|]. split; [apply fresh_lookup|].
  split; [exact Hcopy|]. repeat (split; [reflexivity|]).
  rewrite Hfr by eauto. exact Hcopy.
Qed.

End CallLog.

(** ** Replaying the undo log *)

Section Replay.
Variable this : loc.

Lemma replay_app (l1 l2 : list op) (σ : store) :
  Driver.replay this (l1 ++ l2) σ
  = σ' ← Driver.replay this l1 σ; Driver.replay this l2 σ'.
Proof.
  revert σ. induction l1 as [|o l1 IH]; intros σ; cbn [app Driver.replay].
  - reflexivity.
  - destruct (Driver.apply this o σ) as [σ1|e]; cbn [mbind result_bind].
    + apply IH.
    + reflexivity.
Qed.

(** The entries of one call, replayed last one first on a record that has
    the fields the call left, bring back the fields the record had before
    the call; the name becomes the name of the snapshot when the call is
    [setAuction], and stays otherwise. *)
Lemma replay_undo_of (c : call) (copy : loc) (r r2 : auction) (σ2 : store) :
  copy <> this ->
  σ2 !! this = Some r2 ->
  (forall n h, c = CallSetAuction n h -> σ2 !! copy = Some (snapshot n r)) ->
  reversible r2 = reversible (after c this copy r) ->
  nameHash r2 = nameHash r ->
  exists r3,
    Driver.replay this (rev (undo_of c copy r)) σ2 = Ok (<[this := r3]> σ2) /\
    reversible r3 = reversible r /\
    nameHash r3 = nameHash r /\
    name r3 = match c with CallSetAuction n _ => n | _ => name r2 end.
Proof.
  intros Hne H2 Hsnap Hrev Hnh.
  destruct r as [rn rh ro rv rr rd rhe rre rc ros rus].
  destruct r2 as [n2 h2 o2 v2 r2 d2 he2 re2 c2 os2 us2].
  unfold reversible in Hrev. cbn [nameHash] in Hnh. subst h2.
  destruct c as [n h | o v | o | d | n | b];
    cbn [after owner value revoke data height renewal claimed] in Hrev;
    injection Hrev as -> -> -> -> -> -> ->.
  - specialize (Hsnap n h eq_refl).
    assert (Hinj : Driver.apply this (mkOp types.SET_AUCTION [PAuction copy]) σ2
              = Ok (<[this := mkAuction n rh ro rv rr rd rhe rre rc os2 us2]> σ2)).
    { unfold Driver.apply. op_simpl. rewrite Hsnap.
      rewrite (inject_eq this copy _ _ σ2 ltac:(congruence) H2 Hsnap).
      reflexivity. }
    cbn [undo_of data]. destruct rd as [d|].
    + cbn [app rev Driver.replay]. rewrite Hinj. cbn [mbind result_bind].
      unfold Driver.apply. op_simpl.
      rewrite modify_insert. record_simpl.
      eexists. split; [reflexivity|]. repeat split.
    + cbn [app rev Driver.replay]. rewrite Hinj. cbn [mbind result_bind].
      eexists. split; [reflexivity|]. repeat split.
  - cbn [undo_of rev app Driver.replay owner value].
    unfold Driver.apply. op_simpl.
    rewrite (modify_lookup _ _ _ _ H2), modify_insert. record_simpl.
    eexists. split; [reflexivity|]. repeat split.
  - cbn [undo_of rev app Driver.replay revoke].
    unfold Driver.apply. op_simpl.
    rewrite (modify_lookup _ _ _ _ H2). record_simpl.
    eexists. split; [reflexivity|]. repeat split.
  - cbn [undo_of rev app Driver.replay data].
    unfold Driver.apply. op_simpl.
    rewrite (modify_lookup _ _ _ _ H2). record_simpl.
    eexists. split; [reflexivity|]. repeat split.
  - cbn [undo_of rev app Driver.replay renewal].
    unfold Driver.apply. op_simpl.
    rewrite (modify_lookup _ _ _ _ H2). record_simpl.
    eexists. split; [reflexivity|]. repeat split.
  - cbn [undo_of rev app Driver.replay claimed].
    unfold Driver.apply. op_simpl.
    rewrite (modify_lookup _ _ _ _ H2). record_simpl.
    eexists. split; [reflexivity|]. repeat split.
Qed.

Lemma name_after (c : call) (copy : loc) (r : auction) :
  name (after c this copy r)
  = match c with CallSetAuction n _ => n | _ => name r end.
Proof. now destruct c. Qed.

Lemma nameHash_after (c : call) (copy : loc) (r : auction) :
  nameHash (after c this copy r) = nameHash r.
Proof. now destruct c. Qed.

(** The run of a sequence of calls, and then of the undo entries it
    added, on the record and on the rest of the store. *)
Lemma run_then_undo (cs : list call) :
  forall (σ : store) (r : auction),
    σ !! this = Some r ->
    exists (r1 : auction) (U : list op) (σ' : store) (r' : auction),
      run this cs σ !! this = Some r1 /\
      undo r1 = undo r ++ U /\
      Driver.replay this (rev U) (run this cs σ) = Ok σ' /\
      σ' !! this = Some r' /\
      reversible r' = reversible r /\
      nameHash r' = nameHash r /\
      name r' = first_name cs (name r) /\
      (forall l, l <> this -> is_Some (σ !! l) -> σ' !! l = σ !! l).
Proof.
  induction cs as [|c cs IH]; intros σ r Hr.
  - exists r, [], σ, r. cbn. rewrite app_nil_r. auto 10.
  - rewrite run_cons.
    pose proof (exec_this this c r σ Hr) as H1.
    set (copy := fresh (dom σ)) in *.
    assert (Hne : copy <> this) by apply (fresh_not_live _ _ _ Hr).
    destruct (IH _ _ H1)
      as (r1 & U & σ' & r' & Hlive & Hundo & Hrep & Hr' & Hrev & Hnh & Hnm & Hfr).
    destruct (replay_undo_of c copy r r' σ' Hne Hr') as (r3 & Hrep3 & Hrev3 & Hnh3 & Hnm3).
    { intros n h ->. pose proof (exec_copy this n h r σ Hr) as Hc.
      fold copy in Hc.
      rewrite Hfr; [exact Hc | exact Hne | rewrite Hc; eauto]. }
    { exact Hrev. }
    { rewrite Hnh. apply nameHash_after. }
    exists r1, (undo_of c copy r ++ U), (<[this := r3]> σ'), r3.
    split; [exact Hlive|].
    split; [rewrite Hundo, undo_after, app_assoc; reflexivity|].
    split.
    { rewrite rev_app_distr, replay_app, Hrep. cbn [mbind result_bind].
      exact Hrep3. }
    split; [apply lookup_insert_eq|].
    split; [exact Hrev3|]. split; [exact Hnh3|].
    split.
    { rewrite Hnm3, Hnm, name_after. now destruct c. }
    intros l Hl Hsome. rewrite lookup_insert_ne by congruence.
    rewrite Hfr; [now apply (exec_frame this c r)|exact Hl|].
    rewrite (exec_frame this c r) by assumption. exact Hsome.
Qed.

Lemma first_name_same (cs : list call) (n : bytes) :
  (forall n' h, In (CallSetAuction n' h) cs -> n' = n) ->
  first_name cs n = n.
Proof.
  induction cs as [|c cs IH]; intros H; [reflexivity|].
  destruct c as [n0 h0 | | | | |]; cbn [first_name];
    try (apply IH; intros n' h' Hin; apply (H n' h'); now right).
  apply (H n0 h0). now left.
Qed.

(** C1, as the code has it. After any sequence of mutator calls on a
    record, replaying the undo entries that the sequence added, last one
    first, succeeds and brings back the owner, value, revoke, data, height,
    renewal and claimed (and the nameHash) that the record had before the
    sequence. The name is brought back to the name that the first
    [setAuction] of the sequence passed, and is untouched when the
    sequence has no [setAuction]: the record equals the snapshot on all
    eight fields exactly when that is the name it had, so in particular
    when every [setAuction] passes the name of the record. *)
Theorem undo_restores (cs : list call) (r : auction) (σ : store) :
  σ !! this = Some r ->
  let σ1 := run this cs σ in
  exists (σ' : store) (r' : auction),
    Driver.disconnect this (accumulated r (σ1 !!! this)) σ1 = Ok σ' /\
    σ' !! this = Some r' /\
    reversible r' = reversible r /\
    nameHash r' = nameHash r /\
    name r' = first_name cs (name r) /\
    (persisted r' = persisted r <-> first_name cs (name r) = name r) /\
    ((forall n h, In (CallSetAuction n h) cs -> n = name r) ->
       persisted r' = persisted r).
Proof.
  intros Hr σ1. subst σ1.
  destruct (run_then_undo cs σ r Hr)
    as (r1 & U & σ' & r' & Hlive & Hundo & Hrep & Hr' & Hrev & Hnh & Hnm & _).
  exists σ', r'.
  assert (Hiff : persisted r' = persisted r <-> first_name cs (name r) = name r).
  { rewrite <- Hnm. unfold persisted, reversible in *.
    injection Hrev as -> -> -> -> -> -> ->.
    split; [intros [= ->]; reflexivity | intros ->; reflexivity]. }
  split.
  { unfold Driver.disconnect, accumulated.
    rewrite (lookup_total_correct _ _ _ Hlive), Hundo, drop_app_length.
    exact Hrep. }
  split; [exact Hr'|]. split; [exact Hrev|]. split; [exact Hnh|].
  split; [exact Hnm|]. split; [exact Hiff|].
  intros Hall. apply Hiff. now apply first_name_same.
Qed.

End Replay.

(* ================================================================== *)
(** * The properties on the sample data *)

Lemma example_record_wf : auction_wf example_record.
Proof.
  constructor; cbn [example_record name owner value revoke data height renewal].
  - cbn. lia.
  - split; [reflexivity | cbn; lia].
  - lia.
  - intros H. vm_compute in H. discriminate H.
  - split; [reflexivity | cbn; lia].
  - intros d H. discriminate H.
  - lia.
  - lia.
Defined.

Lemma new_wf : auction_wf Auction.new.
Proof.
  constructor; cbn [Auction.new name owner value revoke data height renewal].
  - cbn. lia.
  - split; [reflexivity | cbn; lia].
  - lia.
  - intros _. reflexivity.
  - split; [reflexivity | cbn; lia].
  - intros d H. discriminate H.
  - lia.
  - lia.
Defined.

Lemma outpointA_wf : Outpoint.wf outpointA.
Proof. split; [reflexivity | cbn; lia]. Defined.

(** The empty record, after [setAuction] and the replay of its undo entry,
    has the name passed to [setAuction], not the empty name it had: the
    replay does not bring back the snapshot field for field. *)
Lemma undo_keeps_new_name :
  let σ1 := run 1%positive [CallSetAuction example_name 100] example_store in
  exists (σ' : store) (r' : auction),
    example_store !! 1%positive = Some Auction.new /\
    Driver.disconnect 1%positive
      (accumulated Auction.new (σ1 !!! 1%positive)) σ1 = Ok σ' /\
    σ' !! 1%positive = Some r' /\
    name r' = example_name /\
    persisted r' <> persisted Auction.new.
Proof.
  cbv zeta. eexists _, _.
  split; [vm_compute; reflexivity|].
  split; [vm_compute; reflexivity|].
  split; [vm_compute; reflexivity|].
  split; [reflexivity|].
  vm_compute. intros H. discriminate H.
Qed.

Lemma undo_restores_witness :
  example_store !! 1%positive = Some Auction.new /\
  exists (σ' : store) (r' : auction),
    Driver.disconnect 1%positive
      (accumulated Auction.new
         (run 1%positive example_calls example_store !!! 1%positive))
      (run 1%positive example_calls example_store) = Ok σ' /\
    σ' !! 1%positive = Some r' /\
    reversible r' = reversible Auction.new /\
    name r' = example_name.
Proof.
  assert (H : example_store !! 1%positive = Some Auction.new)
    by (vm_compute; reflexivity).
  split; [exact H|].
  destruct (undo_restores 1%positive example_calls Auction.new example_store H)
    as (σ' & r' & Hd & Hl & Hrev & _ & Hn & _).
  exists σ', r'. repeat split; assumption.
Defined.

(** The snapshot that [setAuction] logs for the empty record has the name
    passed to the call, not the name the record had before the call. *)
Lemma snapshot_has_new_name :
  let σ1 := Auction.setAuction 1%positive example_name 100 example_store in
  exists (copy : loc) (snap : auction),
    example_store !! 1%positive = Some Auction.new /\
    last (undo (σ1 !!! 1%positive))
    = Some (mkOp types.SET_AUCTION [PAuction copy]) /\
    σ1 !! copy = Some snap /\
    name snap = example_name /\
    name snap <> name Auction.new.
Proof.
  cbv zeta. eexists _, _.
  split; [vm_compute; reflexivity|].
  split; [vm_compute; reflexivity|].
  split; [vm_compute; reflexivity|].
  split; [reflexivity|].
  vm_compute. intros H. discriminate H.
Qed.

Lemma setAuction_snapshot_witness :
  example_store !! 1%positive = Some Auction.new /\
  exists (copy : loc) (snap : auction),
    copy <> 1%positive /\
    Auction.setAuction 1%positive example_name 100 example_store !! copy
    = Some snap /\
    reversible snap = reversible Auction.new /\
    run 1%positive [CallSetOwner outpointA 5000; CallSetData (Some [])]
      (Auction.setAuction 1%positive example_name 100 example_store) !! copy
    = Some snap.
Proof.
  assert (H : example_store !! 1%positive = Some Auction.new)
    by (vm_compute; reflexivity).
  split; [exact H|].
  destruct (setAuction_snapshot 1%positive example_name 100
              [CallSetOwner outpointA 5000; CallSetData (Some [])]
              Auction.new example_store H)
    as (copy & snap & _ & Hne & _ & Hs & _ & _ & Hrev & _ & _ & Hrun).
  exists copy, snap. repeat split; assumption.
Defined.

(** [setAuction] on a record that has data appends two entries to each
    list, not one. *)
Lemma setAuction_logs_twice :
  let r := set_data (Some []) Auction.new in
  let σ : store := {[ 1%positive := r ]} in
  let r' := exec 1%positive (CallSetAuction example_name 100) σ !!! 1%positive in
  σ !! 1%positive = Some r /\
  length (ops r') = (length (ops r) + 2)%nat /\
  length (undo r') = (length (undo r) + 2)%nat /\
  length (ops r') <> S (length (ops r)) /\
  length (undo r') <> S (length (undo r)).
Proof.
  cbv zeta.
  split; [vm_compute; reflexivity|].
  split; [vm_compute; reflexivity|].
  split; [vm_compute; reflexivity|].
  split; vm_compute; intros H; discriminate H.
Qed.

Lemma mutator_log_lengths_witness :
  example_store !! 1%positive = Some Auction.new /\
  length (ops (exec 1%positive (CallSetOwner outpointA 5000) example_store
               !!! 1%positive)) = 1%nat /\
  length (undo (exec 1%positive (CallSetOwner outpointA 5000) example_store
                !!! 1%positive)) = 1%nat.
Proof.
  assert (H : example_store !! 1%positive = Some Auction.new)
    by (vm_compute; reflexivity).
  split; [exact H|].
  destruct (mutator_log_lengths 1%positive (CallSetOwner outpointA 5000) []
              Auction.new example_store H) as (Ho & Hu & _).
  split; [exact Ho | exact Hu].
Defined.

Lemma Auction_roundtrip_witness :
  auction_wf example_record /\
  exists (raw : bytes) (r' : auction),
    Auction.toRaw example_record = Ok raw /\
    Auction.fromRaw raw = Ok r' /\
    persisted r' = persisted example_record.
Proof.
  split; [exact example_record_wf|].
  destruct (Auction_roundtrip example_record example_record_wf)
    as (raw & r' & Hw & Hr & Hp & _).
  exists raw, r'. repeat split; assumption.
Defined.

Lemma Op_roundtrip_witness :
  op_wf ∅ (mkOp types.SET_OWNER [POutpoint outpointA; PNum 5000]) /\
  exists (raw : bytes) (o' : op) (σ'' : store),
    Op.toRaw ∅ (mkOp types.SET_OWNER [POutpoint outpointA; PNum 5000]) = Ok raw /\
    Op.fromRaw raw ∅ = Ok (o', σ'') /\
    op_same ∅ (mkOp types.SET_OWNER [POutpoint outpointA; PNum 5000]) σ'' o'.
Proof.
  assert (H : op_wf ∅ (mkOp types.SET_OWNER [POutpoint outpointA; PNum 5000])).
  { apply wf_SET_OWNER.
    - exact outpointA_wf.
    - lia.
    - intros E. vm_compute in E. discriminate E. }
  split; [exact H|].
  exact (Op_roundtrip ∅ ∅ _ H).
Defined.

Lemma state_phases_witness :
  BIDDING_PERIOD example_rules < TOTAL_PERIOD example_rules /\
  claimed example_record = false /\
  Auction.state example_rules example_record 104 = states.BIDDING /\
  Auction.state example_rules example_record 107 = states.REVEAL /\
  Auction.state example_rules example_record 140 = states.CLOSED.
Proof.
  assert (H : BIDDING_PERIOD example_rules < TOTAL_PERIOD example_rules)
    by (cbn; lia).
  split; [exact H|]. split; [reflexivity|].
  split; [|split].
  - destruct (state_phases example_rules example_record 104 H) as (Hu & _).
    destruct (Hu eq_refl) as (Hb & _). apply Hb. cbn. lia.
  - destruct (state_phases example_rules example_record 107 H) as (Hu & _).
    destruct (Hu eq_refl) as (_ & Hr & _). apply Hr. cbn. lia.
  - destruct (state_phases example_rules example_record 140 H) as (Hu & _).
    destruct (Hu eq_refl) as (_ & _ & Hc). apply Hc. cbn. lia.
Defined.

Lemma isExpired_spec_witness :
  Auction.state example_rules example_record 200 = states.CLOSED /\
  Auction.isExpired example_rules example_record 200 = true /\
  Auction.state example_rules example_record 104 <> states.CLOSED /\
  Auction.isExpired example_rules example_record 104 = false.
Proof.
  split; [reflexivity|]. split; [|split].
  - destruct (isExpired_spec example_rules example_record 200) as (_ & Hc).
    apply (Hc eq_refl). left. cbn. lia.
  - vm_compute. intros H. discriminate H.
  - destruct (isExpired_spec example_rules example_record 104) as (Hn & _).
    apply Hn. vm_compute. intros H. discriminate H.
Defined.

Lemma isLocal_spec_witness :
  CoinView.getEntry (example_view 120) outpointA
  = Some (CoinView.mkEntry 120) /\
  CoinView.height (CoinView.mkEntry 120) <> -1 /\
  Auction.isLocal example_record (example_view 120) outpointA = true.
Proof.
  split; [reflexivity|].
  assert (H : CoinView.height (CoinView.mkEntry 120) <> -1) by (cbn; lia).
  split; [exact H|].
  destruct (isLocal_spec example_record (example_view 120) outpointA)
    as (_ & _ & Hl).
  apply (Hl (CoinView.mkEntry 120) eq_refl H). cbn. lia.
Defined.

Lemma Op_fromRaw_bad_type_witness :
  ~ (0 <= Z_of_byte Byte.x06 <= 5) /\
  Op.fromRaw [Byte.x06; Byte.x01] ∅ = Err BadOpType.
Proof.
  assert (H : ~ (0 <= Z_of_byte Byte.x06 <= 5)) by (change (Z_of_byte Byte.x06) with 6; lia).
  split; [exact H|].
  exact (proj1 (Op_fromRaw_bad_type Byte.x06 [Byte.x01] ∅ H)).
Defined.

Lemma getSize_exact_witness :
  Outpoint.wf (owner example_record) /\
  Outpoint.wf (revoke example_record) /\
  op_wf example_store (mkOp types.SET_AUCTION [PAuction 1%positive]) /\
  (exists raw, Auction.toRaw example_record = Ok raw /\
               Z.of_nat (length raw) = Auction.getSize example_record) /\
  (exists n raw,
      Op.getSize example_store (mkOp types.SET_AUCTION [PAuction 1%positive])
      = Ok n /\
      Op.toRaw example_store (mkOp types.SET_AUCTION [PAuction 1%positive])
      = Ok raw /\
      Z.of_nat (length raw) = n).
Proof.
  pose proof (wf_owner _ example_record_wf) as Ho.
  pose proof (wf_revoke _ example_record_wf) as Hr.
  assert (Hop : op_wf example_store
                  (mkOp types.SET_AUCTION [PAuction 1%positive])).
  { apply (wf_SET_AUCTION _ 1%positive Auction.new).
    - vm_compute. reflexivity.
    - exact new_wf. }
  split; [exact Ho|]. split; [exact Hr|]. split; [exact Hop|].
  destruct (getSize_exact example_store example_record _ Ho Hr Hop)
    as (_ & Ha & n & Hn & _ & raw & Hraw & Hlen).
  split; [exact Ha|]. exists n, raw. repeat split; assumption.
Defined.

(* ================================================================== *)
(** * Further properties of the record *)

(** ** Null records and phases *)

Section NullAndPhases.

Lemma isNull_new_iff (o : Outpoint.t) :
  Outpoint.isNull o = true <-> o = Outpoint.new.
Proof.
  split; [apply isNull_new|]. intros ->. reflexivity.
Qed.

(** X1. [isNull] holds exactly when owner, value, revoke, data, height,
    renewal and claimed are those of a new record: the name and the
    nameHash play no part in it. *)
Theorem isNull_iff (this : auction) :
  Auction.isNull this = true <-> reversible this = reversible Auction.new.
Proof.
  unfold Auction.isNull, reversible.
  destruct this as [n nh o v r d h re c os us].
  cbn [owner value revoke data height renewal claimed Auction.new].
  rewrite !andb_true_iff, !isNull_new_iff, !Z.eqb_eq, bool_decide_eq_true,
    negb_true_iff.
  split.
  - intros ((((((-> & ->) & ->) & ->) & ->) & ->) & ->). reflexivity.
  - intros [= -> -> -> -> -> -> ->]. repeat split.
Qed.

(** X2. [setNull] leaves a record for which [isNull] holds, with the name,
    the nameHash and both logs it had, and changes no other object of the
    store. *)
Theorem setNull_spec (this : loc) (r : auction) (σ : store) :
  σ !! this = Some r ->
  exists r',
    Auction.setNull this σ !! this = Some r' /\
    Auction.isNull r' = true /\
    name r' = name r /\ nameHash r' = nameHash r /\
    ops r' = ops r /\ undo r' = undo r /\
    (forall l, l <> this -> Auction.setNull this σ !! l = σ !! l).
Proof.
  intros Hr. unfold Auction.setNull. cbv zeta.
  rewrite (modify_lookup _ _ _ _ Hr), !modify_insert.
  eexists. split; [apply lookup_insert_eq|].
  split; [reflexivity|]. repeat (split; [reflexivity|]).
  intros l Hl. now rewrite lookup_insert_ne by congruence.
Qed.

Variable rules : Rules.

(** X3. At every height exactly one of [isBidding], [isReveal] and
    [isClosed] holds. *)
Theorem phase_predicates_partition (this : auction) (h : Z) :
  (Auction.isBidding rules this h = true /\
   Auction.isReveal rules this h = false /\
   Auction.isClosed rules this h = false) \/
  (Auction.isBidding rules this h = false /\
   Auction.isReveal rules this h = true /\
   Auction.isClosed rules this h = false) \/
  (Auction.isBidding rules this h = false /\
   Auction.isReveal rules this h = false /\
   Auction.isClosed rules this h = true).
Proof.
  unfold Auction.isBidding, Auction.isReveal, Auction.isClosed, Auction.state.
  destruct (claimed this); [right; right; repeat split|].
  destruct (h <? height this + BIDDING_PERIOD rules);
    [left; repeat split|].
  destruct (h <? height this + TOTAL_PERIOD rules);
    [right; left; repeat split | right; right; repeat split].
Qed.

Lemma isClosed_mono (this : auction) (h h' : Z) :
  Auction.isClosed rules this h = true -> h <= h' ->
  Auction.isClosed rules this h' = true.
Proof.
  unfold Auction.isClosed, Auction.state.
  destruct (claimed this); [reflexivity|].
  destruct (Z.ltb_spec h (height this + BIDDING_PERIOD rules));
    [discriminate|].
  destruct (Z.ltb_spec h (height this + TOTAL_PERIOD rules));
    [discriminate|].
  intros _ Hle.
  destruct (Z.ltb_spec h' (height this + BIDDING_PERIOD rules)); [lia|].
  destruct (Z.ltb_spec h' (height this + TOTAL_PERIOD rules)); [lia|].
  reflexivity.
Qed.

(** X4. A record that is expired at a height is closed at that height, and
    is expired at every later height. *)
Theorem isExpired_mono (this : auction) (h h' : Z) :
  Auction.isExpired rules this h = true -> h <= h' ->
  Auction.isClosed rules this h = true /\
  Auction.isExpired rules this h' = true.
Proof.
  unfold Auction.isExpired. intros He Hle.
  destruct (Auction.isClosed rules this h) eqn:Hc; [|discriminate].
  split; [reflexivity|].
  rewrite (isClosed_mono this h h' Hc Hle). cbn [negb] in *.
  destruct (Z.geb_spec h (renewal this + RENEWAL_WINDOW rules)).
  - destruct (Z.geb_spec h' (renewal this + RENEWAL_WINDOW rules));
      [reflexivity|lia].
  - destruct (h' >=? renewal this + RENEWAL_WINDOW rules); [reflexivity|].
    exact He.
Qed.

End NullAndPhases.

(** ** The mutators *)

Section Mutators.
Variable this : loc.

(** X5. Each of the five field mutators sets its field (owner and value for
    [setOwner]), pushes one entry with the new value on [ops] and one with
    the old value on [undo], and leaves the name and every other persisted
    field as it was. *)
Theorem setters_spec (r : auction) (σ : store) :
  σ !! this = Some r ->
  (forall o v, let r' := Auction.setOwner this o v σ !!! this in
     ops r' = ops r ++ [mkOp types.SET_OWNER [POutpoint o; PNum v]] /\
     undo r' = undo r ++ [mkOp types.SET_OWNER
                            [POutpoint (owner r); PNum (value r)]] /\
     persisted r'
     = (name r, o, v, revoke r, data r, height r, renewal r, claimed r)) /\
  (forall o, let r' := Auction.setRevoke this o σ !!! this in
     ops r' = ops r ++ [mkOp types.SET_REVOKE [POutpoint o]] /\
     undo r' = undo r ++ [mkOp types.SET_REVOKE [POutpoint (revoke r)]] /\
     persisted r'
     = (name r, owner r, value r, o, data r, height r, renewal r, claimed r)) /\
  (forall d, let r' := Auction.setData this d σ !!! this in
     ops r' = ops r ++ [mkOp types.SET_DATA [PData d]] /\
     undo r' = undo r ++ [mkOp types.SET_DATA [PData (data r)]] /\
     persisted r'
     = (name r, owner r, value r, revoke r, d, height r, renewal r, claimed r)) /\
  (forall n, let r' := Auction.setRenewal this n σ !!! this in
     ops r' = ops r ++ [mkOp types.SET_RENEWAL [PNum n]] /\
     undo r' = undo r ++ [mkOp types.SET_RENEWAL [PNum (renewal r)]] /\
     persisted r'
     = (name r, owner r, value r, revoke r, data r, height r, n, claimed r)) /\
  (forall b, let r' := Auction.setClaimed this b σ !!! this in
     ops r' = ops r ++ [mkOp types.SET_CLAIMED [PBool b]] /\
     undo r' = undo r ++ [mkOp types.SET_CLAIMED [PBool (claimed r)]] /\
     persisted r'
     = (name r, owner r, value r, revoke r, data r, height r, renewal r, b)).
Proof.
  intros Hr. repeat split.
  all: match goal with
       | |- context [Auction.setOwner _ ?o ?v _] =>
           pose proof (exec_this this (CallSetOwner o v) r σ Hr) as H
       | |- context [Auction.setRevoke _ ?o _] =>
           pose proof (exec_this this (CallSetRevoke o) r σ Hr) as H
       | |- context [Auction.setData _ ?d _] =>
           pose proof (exec_this this (CallSetData d) r σ Hr) as H
       | |- context [Auction.setRenewal _ ?n _] =>
           pose proof (exec_this this (CallSetRenewal n) r σ Hr) as H
       | |- context [Auction.setClaimed _ ?b _] =>
           pose proof (exec_this this (CallSetClaimed b) r σ Hr) as H
       end;
    cbn [exec] in H; rewrite (lookup_total_correct _ _ _ H); reflexivity.
Qed.

(** X6. [setAuction] leaves a record with the name and the height passed to
    it, the renewal equal to the height, null owner, revoke and data, value
    zero, claimed false and the nameHash it had; the last entry of [ops]
    refers to the record itself; and [isNull] holds of the record exactly
    when the height passed is zero. *)
Theorem setAuction_resets (n : bytes) (h : Z) (r : auction) (σ : store) :
  σ !! this = Some r ->
  let r' := Auction.setAuction this n h σ !!! this in
  name r' = n /\ nameHash r' = nameHash r /\
  reversible r' = (Outpoint.new, 0, Outpoint.new, None, h, h, false) /\
  last (ops r') = Some (mkOp types.SET_AUCTION [PAuction this]) /\
  (Auction.isNull r' = true <-> h = 0).
Proof.
  intros Hr r'. subst r'.
  rewrite (setAuction_after _ _ _ _ _ Hr), lookup_total_insert_eq.
  split; [reflexivity|]. split; [reflexivity|]. split; [reflexivity|].
  split.
  { rewrite ops_after. cbn [ops_of]. rewrite app_assoc. apply last_snoc. }
  unfold Auction.isNull.
  cbn [after owner value revoke data height renewal claimed].
  change (Outpoint.isNull Outpoint.new) with true.
  rewrite bool_decide_eq_true_2 by reflexivity.
  cbn [andb negb Z.eqb].
  destruct (Z.eqb_spec h 0) as [->|Hne]; cbn [andb].
  - split; reflexivity.
  - split; [discriminate | intros E; contradiction].
Qed.

(** X7. A record that [setAuction] has just reset at height [h] follows the
    three height ranges from [h] on, is in BIDDING at [h] when the bidding
    period is positive, and is expired at a height exactly when it is
    closed at that height. *)
Theorem setAuction_new_cycle (rules : Rules) (n : bytes) (h q : Z)
    (r : auction) (σ : store) :
  σ !! this = Some r ->
  let r' := Auction.setAuction this n h σ !!! this in
  Auction.state rules r' q
  = (if q <? h + BIDDING_PERIOD rules then states.BIDDING
     else if q <? h + TOTAL_PERIOD rules then states.REVEAL
     else states.CLOSED) /\
  (0 < BIDDING_PERIOD rules -> Auction.isBidding rules r' h = true) /\
  Auction.isExpired rules r' q = Auction.isClosed rules r' q.
Proof.
  intros Hr r'. subst r'.
  rewrite (setAuction_after _ _ _ _ _ Hr), lookup_total_insert_eq.
  split; [reflexivity|]. split.
  - intros HB. unfold Auction.isBidding, Auction.state.
    cbn [after claimed height].
    destruct (Z.ltb_spec h (h + BIDDING_PERIOD rules)); [reflexivity|lia].
  - unfold Auction.isExpired. cbn [after owner revoke renewal].
    change (Outpoint.isNull Outpoint.new) with true. cbn [andb].
    destruct (Auction.isClosed rules _ q); cbn [negb]; [|reflexivity].
    now destruct (q >=? h + RENEWAL_WINDOW rules).
Qed.

Lemma types_ops_undo (c : call) (copy : loc) (r : auction) :
  map type (ops_of c this r) = map type (undo_of c copy r).
Proof. destruct c; cbn; try reflexivity. now destruct (data r). Qed.

Lemma run_logs (cs : list call) :
  forall (σ : store) (r : auction),
    σ !! this = Some r ->
    exists (r1 : auction) (os us : list op),
      run this cs σ !! this = Some r1 /\
      ops r1 = ops r ++ os /\ undo r1 = undo r ++ us /\
      map type os = map type us /\
      nameHash r1 = nameHash r.
Proof.
  induction cs as [|c cs IH]; intros σ r Hr.
  - exists r, [], []. cbn. rewrite !app_nil_r. auto.
  - rewrite run_cons.
    destruct (IH _ _ (exec_this this c r σ Hr))
      as (r1 & os & us & Hl & Ho & Hu & Ht & Hn).
    exists r1, (ops_of c this r ++ os), (undo_of c (fresh (dom σ)) r ++ us).
    split; [exact Hl|].
    split; [rewrite Ho, ops_after, app_assoc; reflexivity|].
    split; [rewrite Hu, undo_after, app_assoc; reflexivity|].
    split.
    + rewrite !map_app, Ht. f_equal. apply types_ops_undo.
    + rewrite Hn. apply nameHash_after.
Qed.

(** X8. The logs only grow, and they grow in step: after any sequence of
    mutator calls, [ops] and [undo] are what they were followed by new
    entries, and the new entries of the two lists have the same types in
    the same order. *)
Theorem logs_grow_in_step (cs : list call) (r : auction) (σ : store) :
  σ !! this = Some r ->
  exists os us : list op,
    ops (run this cs σ !!! this) = ops r ++ os /\
    undo (run this cs σ !!! this) = undo r ++ us /\
    map type os = map type us.
Proof.
  intros Hr.
  destruct (run_logs cs σ r Hr) as (r1 & os & us & Hl & Ho & Hu & Ht & _).
  exists os, us. rewrite (lookup_total_correct _ _ _ Hl). auto.
Qed.

(** X9. A sequence of mutator calls on a record changes no other object
    that the store holds and removes none, keeps the record in the store,
    and never changes its nameHash. *)
Theorem mutators_frame (cs : list call) (r : auction) (σ : store) :
  σ !! this = Some r ->
  (forall l, l <> this -> is_Some (σ !! l) -> run this cs σ !! l = σ !! l) /\
  (exists r1, run this cs σ !! this = Some r1 /\ nameHash r1 = nameHash r).
Proof.
  intros Hr. split.
  - apply (run_frame this cs σ r Hr).
  - destruct (run_logs cs σ r Hr) as (r1 & _ & _ & Hl & _ & _ & _ & Hn).
    eauto.
Qed.

(** X10. The entry that [setAuction] pushes on [ops] refers to the record
    itself, not to a copy: encoded after later mutator calls it carries the
    record as those calls left it, while the entry pushed on [undo] keeps
    carrying the copy taken by [setAuction]. *)
Theorem forward_entry_is_live (n : bytes) (h : Z) (cs : list call)
    (r : auction) (σ : store) :
  σ !! this = Some r ->
  let σ1 := Auction.setAuction this n h σ in
  let σ2 := run this cs σ1 in
  exists (copy : loc) (r2 : auction),
    last (ops (σ1 !!! this)) = Some (mkOp types.SET_AUCTION [PAuction this]) /\
    last (undo (σ1 !!! this)) = Some (mkOp types.SET_AUCTION [PAuction copy]) /\
    σ2 !! this = Some r2 /\
    (forall bw,
        Op.toWriter σ2 (mkOp types.SET_AUCTION [PAuction this]) bw
        = Ok (Auction.toWriter r2 (Bio.writeU8 0 bw))) /\
    (forall bw,
        Op.toWriter σ2 (mkOp types.SET_AUCTION [PAuction copy]) bw
        = Ok (Auction.toWriter (snapshot n r) (Bio.writeU8 0 bw))).
Proof.
  intros Hr σ1 σ2. subst σ2 σ1.
  pose proof (fresh_not_live _ _ _ Hr) as Hne.
  rewrite (setAuction_after _ _ _ _ _ Hr).
  set (r1 := after (CallSetAuction n h) this (fresh (dom σ)) r).
  set (σ0 := <[fresh (dom σ) := snapshot n r]> σ).
  assert (Hthis : <[this := r1]> σ0 !! this = Some r1)
    by apply lookup_insert_eq.
  assert (Hcopy : <[this := r1]> σ0 !! fresh (dom σ) = Some (snapshot n r)).
  { rewrite lookup_insert_ne by congruence. apply lookup_insert_eq. }
  destruct (run_frame this cs _ _ Hthis) as [[r2 Hr2] Hfr].
  exists (fresh (dom σ)), r2.
  rewrite (lookup_total_correct _ _ _ Hthis). unfold r1 at 1 2.
  rewrite ops_after, undo_after. cbn [ops_of undo_of]. rewrite !app_assoc.
  split; [apply last_snoc|]. split; [apply last_snoc|].
  split; [exact Hr2|]. split.
  - intros bw. unfold Op.toWriter. cbv zeta. op_simpl. now rewrite Hr2.
  - intros bw. unfold Op.toWriter. cbv zeta. op_simpl.
    rewrite Hfr by eauto. now rewrite Hcopy.
Qed.

End Mutators.

(** ** Encoding and decoding: errors and edges *)

Section CodecEdges.

(** X11. An operation whose type is none of the six tags cannot be sized
    or encoded: [getSize], [toWriter] and [toRaw] fail with the bad-type
    error, whatever its params are. *)
Theorem Op_encode_bad_type (σ : store) (o : op) (bw : Bio.Writer) :
  ~ (0 <= type o <= 5) ->
  Op.getSize σ o = Err BadOpType /\
  Op.toWriter σ o bw = Err BadOpType /\
  Op.toRaw σ o = Err BadOpType.
Proof.
  intros Ht.
  assert (Hs : Op.getSize σ o = Err BadOpType).
  { unfold Op.getSize, types.SET_AUCTION, types.SET_OWNER, types.SET_REVOKE,
      types.SET_DATA, types.SET_RENEWAL, types.SET_CLAIMED.
    destruct (Z.eqb_spec (type o) 0); [lia|].
    destruct (Z.eqb_spec (type o) 1); [lia|].
    destruct (Z.eqb_spec (type o) 2); [lia|].
    destruct (Z.eqb_spec (type o) 3); [lia|].
    destruct (Z.eqb_spec (type o) 4); [lia|].
    destruct (Z.eqb_spec (type o) 5); [lia|]. reflexivity. }
  split; [exact Hs|]. split.
  - unfold Op.toWriter, types.SET_AUCTION, types.SET_OWNER, types.SET_REVOKE,
      types.SET_DATA, types.SET_RENEWAL, types.SET_CLAIMED. cbv zeta.
    destruct (Z.eqb_spec (type o) 0); [lia|].
    destruct (Z.eqb_spec (type o) 1); [lia|].
    destruct (Z.eqb_spec (type o) 2); [lia|].
    destruct (Z.eqb_spec (type o) 3); [lia|].
    destruct (Z.eqb_spec (type o) 4); [lia|].
    destruct (Z.eqb_spec (type o) 5); [lia|]. reflexivity.
  - unfold Op.toRaw. now rewrite Hs.
Qed.

(** X12. A presence byte other than 1 reads as absent: the decoder of an
    operation then gives the null outpoint (with value 0 for [SET_OWNER]) or
    null data and reads no payload; the claimed flag is true for the byte 1
    only. The store is left as it was. *)
Theorem Op_fromReader_absent (p : Byte.byte) (rest : bytes) (σ : store) :
  Z_of_byte p <> 1 ->
  Op.fromReader (Byte.x01 :: p :: rest) σ
  = Ok (mkOp types.SET_OWNER [POutpoint Outpoint.new; PNum 0], rest, σ) /\
  Op.fromReader (Byte.x02 :: p :: rest) σ
  = Ok (mkOp types.SET_REVOKE [POutpoint Outpoint.new], rest, σ) /\
  Op.fromReader (Byte.x03 :: p :: rest) σ
  = Ok (mkOp types.SET_DATA [PData None], rest, σ) /\
  Op.fromReader (Byte.x05 :: p :: rest) σ
  = Ok (mkOp types.SET_CLAIMED [PBool false], rest, σ).
Proof.
  intros Hp. apply Z.eqb_neq in Hp.
  repeat split; unfold Op.fromReader; rewrite readU8_cons;
    cbn [mbind result_bind]; cbv beta iota;
    [ change (Z_of_byte Byte.x01) with 1
    | change (Z_of_byte Byte.x02) with 2
    | change (Z_of_byte Byte.x03) with 3
    | change (Z_of_byte Byte.x05) with 5 ];
    op_simpl; rewrite readU8_cons; cbn [mbind result_bind]; cbv beta iota;
    rewrite Hp; reflexivity.
Qed.

End CodecEdges.

(** ** Decoders on arbitrary input *)

Section DecoderFacts.

Lemma decodeLE_range (bs : bytes) :
  0 <= Bio.decodeLE bs < 256 ^ Z.of_nat (length bs).
Proof.
  induction bs as [|b bs IH]; cbn [Bio.decodeLE length].
  - cbn. lia.
  - pose proof (Z_of_byte_range b).
    rewrite Nat2Z.inj_succ, Z.pow_succ_r by lia. lia.
Qed.

Lemma readBytes_inv (n : Z) (br bs br' : bytes) :
  Bio.readBytes n br = Ok (bs, br') ->
  br = bs ++ br' /\ Z.of_nat (length bs) = n.
Proof.
  unfold Bio.readBytes.
  destruct (Z.leb_spec 0 n); [|discriminate].
  destruct (Z.leb_spec n (Z.of_nat (length br))); [|discriminate].
  cbn [andb]. intros [= <- <-]. split.
  - symmetry. apply take_drop.
  - rewrite length_take. lia.
Qed.

Lemma stable_readBytes (n : Z) : stable (Bio.readBytes n).
Proof.
  intros p bs r ext. unfold Bio.readBytes.
  destruct (Z.leb_spec 0 n); [|discriminate].
  destruct (Z.leb_spec n (Z.of_nat (length p))); [|discriminate].
  cbn [andb]. intros [= <- <-].
  destruct (Z.leb_spec n (Z.of_nat (length (p ++ ext))));
    [|rewrite length_app in *; lia].
  cbn [andb]. rewrite take_app_le, drop_app_le by lia. reflexivity.
Qed.

Lemma readLE_inv (n : Z) (br : bytes) (v : Z) (br' : bytes) :
  Bio.readLE n br = Ok (v, br') -> 0 <= v < 256 ^ n.
Proof.
  unfold Bio.readLE.
  destruct (Bio.readBytes n br) as [[bs r]|e] eqn:E; [|discriminate].
  cbn [mbind result_bind]. intros [= <- <-].
  apply readBytes_inv in E as [_ <-]. apply decodeLE_range.
Qed.

Lemma stable_readLE (n : Z) : stable (Bio.readLE n).
Proof.
  intros p v r ext. unfold Bio.readLE.
  destruct (Bio.readBytes n p) as [[bs r0]|e] eqn:E; [|discriminate].
  cbn [mbind result_bind]. intros [= <- <-].
  now rewrite (stable_readBytes n _ _ _ ext E).
Qed.

Lemma readU8_inv (br : bytes) (v : Z) (br' : bytes) :
  Bio.readU8 br = Ok (v, br') -> 0 <= v < 256.
Proof. intros H. apply readLE_inv in H. cbn in H. lia. Qed.

Lemma readU32_inv (br : bytes) (v : Z) (br' : bytes) :
  Bio.readU32 br = Ok (v, br') -> 0 <= v < 2 ^ 32.
Proof. intros H. apply readLE_inv in H. cbn in *. lia. Qed.

Lemma readU64_inv (br : bytes) (v : Z) (br' : bytes) :
  Bio.readU64 br = Ok (v, br') -> 0 <= v < 2 ^ 64.
Proof. intros H. apply readLE_inv in H. cbn in *. lia. Qed.

Lemma stable_readU8 : stable Bio.readU8.
Proof. apply stable_readLE. Qed.

Lemma stable_readU16 : stable Bio.readU16.
Proof. apply stable_readLE. Qed.

Lemma stable_readU32 : stable Bio.readU32.
Proof. apply stable_readLE. Qed.

Lemma stable_readU64 : stable Bio.readU64.
Proof. apply stable_readLE. Qed.

Lemma stable_readHash : stable Bio.readHash.
Proof. apply stable_readBytes. Qed.

End DecoderFacts.

(** The result of the next read of a decoder that is known to succeed. *)
Ltac head_read t :=
  lazymatch t with
  | mbind _ ?x => head_read x
  | (if ?c then _ else _) => constr:(c)
  | _ => constr:(t)
  end.

Ltac inv_read H :=
  cbn [mbind result_bind] in H; cbv beta iota zeta in H;
  lazymatch type of H with
  | ?lhs = Ok _ =>
      let x := head_read lhs in
      lazymatch x with
      | Ok _ => fail
      | Err _ => discriminate H
      | _ =>
          lazymatch type of x with
          | bool => revert H; destruct x eqn:?; intros H
          | _ => revert H; destruct x as [[? ?]|?] eqn:?; intros H;
                 [|discriminate H]
          end
      end
  end.

(** The same reads on the input followed by more bytes. *)
Ltac ext_read :=
  cbn [mbind result_bind]; cbv beta iota zeta;
  match goal with
  | E : Bio.readU8 ?p = Ok _ |- context [Bio.readU8 (?p ++ ?ext)] =>
      rewrite (stable_readU8 _ _ _ ext E)
  | E : Bio.readU16 ?p = Ok _ |- context [Bio.readU16 (?p ++ ?ext)] =>
      rewrite (stable_readU16 _ _ _ ext E)
  | E : Bio.readU32 ?p = Ok _ |- context [Bio.readU32 (?p ++ ?ext)] =>
      rewrite (stable_readU32 _ _ _ ext E)
  | E : Bio.readU64 ?p = Ok _ |- context [Bio.readU64 (?p ++ ?ext)] =>
      rewrite (stable_readU64 _ _ _ ext E)
  | E : Bio.readHash ?p = Ok _ |- context [Bio.readHash (?p ++ ?ext)] =>
      rewrite (stable_readHash _ _ _ ext E)
  | E : Bio.readBytes ?n ?p = Ok _ |- context [Bio.readBytes ?n (?p ++ ?ext)] =>
      rewrite (stable_readBytes n _ _ _ ext E)
  | E : ?c = _ |- context [if ?c then _ else _] => rewrite E
  end.

Section DecoderFacts2.

Lemma readVarint_inv (br : bytes) (v : Z) (br' : bytes) :
  Bio.readVarint br = Ok (v, br') -> 0 <= v < 2 ^ 64.
Proof.
  unfold Bio.readVarint. intros H.
  repeat inv_read H.
  all: cbn [mbind result_bind] in H; cbv beta iota zeta in H;
    try discriminate H; injection H as <- <-.
  all: repeat match goal with
         | E : Bio.readU8 _ = Ok _ |- _ => apply readU8_inv in E
         | E : Bio.readU64 _ = Ok _ |- _ => apply readU64_inv in E
         | E : Bio.readU32 _ = Ok _ |- _ => apply readU32_inv in E
         | E : Bio.readU16 _ = Ok _ |- _ =>
             apply readLE_inv in E; cbn in E
         end; cbn in *; lia.
Qed.

Lemma stable_readVarint : stable Bio.readVarint.
Proof.
  intros p v r ext H. unfold Bio.readVarint in *.
  repeat inv_read H.
  all: cbn [mbind result_bind] in H; cbv beta iota zeta in H;
    try discriminate H; injection H as <- <-.
  all: repeat ext_read; reflexivity.
Qed.

Lemma readVarBytes_inv (br d br' : bytes) :
  Bio.readVarBytes br = Ok (d, br') -> Z.of_nat (length d) < 2 ^ 64.
Proof.
  unfold Bio.readVarBytes. intros H.
  destruct (Bio.readVarint br) as [[n r]|e] eqn:E; [|discriminate].
  cbn [mbind result_bind] in H.
  apply readVarint_inv in E. apply readBytes_inv in H as [_ Hl]. lia.
Qed.

Lemma stable_readVarBytes : stable Bio.readVarBytes.
Proof.
  intros p d r ext H. unfold Bio.readVarBytes in *.
  destruct (Bio.readVarint p) as [[n r0]|e] eqn:E; [|discriminate].
  cbn [mbind result_bind] in H.
  rewrite (stable_readVarint _ _ _ ext E). cbn [mbind result_bind].
  now apply stable_readBytes.
Qed.

Lemma Outpoint_fromReader_inv (br : bytes) (o : Outpoint.t) (br' : bytes) :
  Outpoint.fromReader br = Ok (o, br') -> Outpoint.wf o.
Proof.
  unfold Outpoint.fromReader, Bio.readHash. intros H.
  destruct (Bio.readBytes 32 br) as [[h r]|e] eqn:E; [|discriminate].
  cbn [mbind result_bind] in H.
  destruct (Bio.readU32 r) as [[i r1]|e] eqn:E1; [|discriminate].
  cbn [mbind result_bind] in H. injection H as <- <-.
  apply readBytes_inv in E as [_ Hl]. apply readU32_inv in E1.
  split; cbn [Outpoint.hash Outpoint.index]; [lia | exact E1].
Qed.

Lemma stable_Outpoint_fromReader : stable Outpoint.fromReader.
Proof.
  intros p o r ext H. unfold Outpoint.fromReader in *.
  repeat inv_read H.
  cbn [mbind result_bind] in H; cbv beta iota zeta in H.
  injection H as <- <-.
  repeat ext_read. reflexivity.
Qed.

End DecoderFacts2.

Ltac ext_read_all :=
  first
    [ ext_read
    | cbn [mbind result_bind]; cbv beta iota zeta;
      match goal with
      | E : Outpoint.fromReader ?p = Ok _
        |- context [Outpoint.fromReader (?p ++ ?ext)] =>
          rewrite (stable_Outpoint_fromReader _ _ _ ext E)
      | E : Bio.readVarBytes ?p = Ok _
        |- context [Bio.readVarBytes (?p ++ ?ext)] =>
          rewrite (stable_readVarBytes _ _ _ ext E)
      end ].

Ltac read_facts :=
  repeat match goal with
    | E : Bio.readU8 _ = Ok _ |- _ => apply readU8_inv in E
    | E : Bio.readU32 _ = Ok _ |- _ => apply readU32_inv in E
    | E : Bio.readU64 _ = Ok _ |- _ => apply readU64_inv in E
    | E : Bio.readBytes _ _ = Ok _ |- _ => apply readBytes_inv in E as [_ ?]
    | E : Bio.readVarBytes _ = Ok _ |- _ => apply readVarBytes_inv in E
    | E : Outpoint.fromReader _ = Ok _ |- _ =>
        apply Outpoint_fromReader_inv in E
    end.

Section AuctionDecoder.

Lemma Outpoint_new_wf : Outpoint.wf Outpoint.new.
Proof. split; [reflexivity | cbn; lia]. Qed.

Lemma Auction_fromReader_fields (br br' : bytes) (a : auction) :
  Auction.fromReader br = Ok (a, br') ->
  (length (name a) <= 255)%nat /\
  Outpoint.wf (owner a) /\ 0 <= value a < 2 ^ 64 /\
  Outpoint.wf (revoke a) /\
  (forall d, data a = Some d -> Z.of_nat (length d) < 2 ^ 64) /\
  0 <= height a < 2 ^ 32 /\ 0 <= renewal a < 2 ^ 32 /\
  nameHash a = ZERO_HASH /\ ops a = [] /\ undo a = [].
Proof.
  intros H. unfold Auction.fromReader in H. cbv zeta in H.
  repeat inv_read H.
  all: cbn [mbind result_bind] in H; cbv beta iota zeta in H;
    injection H as <- <-.
  all: read_facts.
  all: cbv [set_name set_owner set_value set_revoke set_data set_height
            set_renewal set_claimed Auction.new
            name nameHash owner value revoke data height renewal claimed
            ops undo].
  all: repeat match goal with W : Outpoint.wf _ |- _ => destruct W end.
  all: repeat split; try assumption; try lia; try reflexivity;
    try (cbn; lia);
    try (intros d' [= <-]; assumption);
    try (intros d' Hd'; discriminate Hd').
Qed.

(** X13. Whatever bytes it is given, a record that [Auction.fromReader]
    returns has a name of at most 255 bytes, outpoints of the fixed size, a
    value below 2^64, height and renewal below 2^32, the zero nameHash and
    empty logs: it is a record of the data model as soon as its value is
    zero under a null owner. *)
Theorem Auction_fromReader_range (br br' : bytes) (a : auction) :
  Auction.fromReader br = Ok (a, br') ->
  (length (name a) <= 255)%nat /\
  Outpoint.wf (owner a) /\ 0 <= value a < 2 ^ 64 /\
  Outpoint.wf (revoke a) /\
  0 <= height a < 2 ^ 32 /\ 0 <= renewal a < 2 ^ 32 /\
  nameHash a = ZERO_HASH /\ ops a = [] /\ undo a = [] /\
  ((Outpoint.isNull (owner a) = true -> value a = 0) -> auction_wf a).
Proof.
  intros H.
  destruct (Auction_fromReader_fields br br' a H)
    as (Hn & Ho & Hv & Hr & Hd & Hh & Hre & Hnh & Hops & Hundo).
  repeat (split; [assumption|]).
  intros Hnull. now constructor.
Qed.

Lemma stable_Auction_fromReader : stable Auction.fromReader.
Proof.
  intros p a r ext H. unfold Auction.fromReader in *. cbv zeta in *.
  repeat inv_read H.
  all: cbn [mbind result_bind] in H; cbv beta iota zeta in H;
    injection H as <- <-.
  all: repeat ext_read_all; reflexivity.
Qed.

(** X14. What [Auction.fromReader] returns does not depend on the bytes
    that follow the ones it reads, which it leaves in the reader; so
    [Auction.fromRaw] gives the same record when bytes are appended to an
    input that decodes. *)
Theorem Auction_decode_ignores_tail (p ext r : bytes) (a : auction) :
  Auction.fromReader p = Ok (a, r) ->
  Auction.fromReader (p ++ ext) = Ok (a, r ++ ext) /\
  Auction.fromRaw (p ++ ext) = Ok a /\
  Auction.fromRaw p = Ok a.
Proof.
  intros H. pose proof (stable_Auction_fromReader _ _ _ ext H) as He.
  split; [exact He|].
  unfold Auction.fromRaw, Bio.read. rewrite He, H. split; reflexivity.
Qed.

(** X15. A truncated encoding never decodes: when [toRaw] of a record of
    the data model is cut short by at least one byte, [fromRaw] of what is
    left fails. *)
Theorem Auction_truncated_fails (a : auction) (raw p q : bytes) :
  auction_wf a ->
  Auction.toRaw a = Ok raw -> raw = p ++ q -> q <> [] ->
  exists e, Auction.fromRaw p = Err e.
Proof.
  intros Hwf Hraw -> Hq.
  rewrite (Auction_toRaw_bytes a (wf_owner _ Hwf) (wf_revoke _ Hwf)) in Hraw.
  injection Hraw as Hb.
  unfold Auction.fromRaw, Bio.read.
  destruct (Auction.fromReader p) as [[a' r]|e] eqn:E.
  - exfalso. apply (stable_Auction_fromReader _ _ _ q) in E.
    rewrite <- Hb in E.
    pose proof (Auction_fromReader_bytes a [] Hwf) as Hfull.
    rewrite app_nil_r in Hfull. rewrite Hfull in E.
    injection E as _ Hnil. symmetry in Hnil.
    apply app_eq_nil in Hnil as [_ Hnil]. contradiction.
  - exists e. reflexivity.
Qed.

(** X16. Records of the data model with the same encoding have the same
    persisted fields. *)
Theorem Auction_toRaw_injective (a b : auction) (raw : bytes) :
  auction_wf a -> auction_wf b ->
  Auction.toRaw a = Ok raw -> Auction.toRaw b = Ok raw ->
  persisted a = persisted b.
Proof.
  intros Ha Hb Hra Hrb.
  rewrite (Auction_toRaw_bytes a (wf_owner _ Ha) (wf_revoke _ Ha)) in Hra.
  rewrite (Auction_toRaw_bytes b (wf_owner _ Hb) (wf_revoke _ Hb)) in Hrb.
  injection Hra as Hra. injection Hrb as Hrb.
  pose proof (Auction_fromReader_bytes a [] Ha) as Hda.
  pose proof (Auction_fromReader_bytes b [] Hb) as Hdb.
  rewrite Hra in Hda. rewrite Hrb in Hdb. rewrite Hda in Hdb.
  unfold decoded in Hdb. injection Hdb as Hn Ho Hv Hr Hd Hh Hre Hc.
  unfold persisted. congruence.
Qed.

End AuctionDecoder.

Ltac ext_read_op :=
  first
    [ ext_read_all
    | cbn [mbind result_bind]; cbv beta iota zeta;
      match goal with
      | E : Auction.fromReader ?p = Ok _
        |- context [Auction.fromReader (?p ++ ?ext)] =>
          rewrite (stable_Auction_fromReader _ _ _ ext E)
      end ].

Section OpDecoder.

(** X17. Whatever bytes it is given, an operation that [Op.fromReader]
    returns has one of the six types; decoding changes no object that the
    store holds; it leaves the store as it was unless the type is
    [SET_AUCTION], and then adds exactly one object, at a location that was
    free, to which the operation refers. *)
Theorem Op_fromReader_store (br br' : bytes) (σ σ' : store) (o : op) :
  Op.fromReader br σ = Ok (o, br', σ') ->
  0 <= type o <= 5 /\
  (forall l, is_Some (σ !! l) -> σ' !! l = σ !! l) /\
  (type o <> types.SET_AUCTION -> σ' = σ) /\
  (type o = types.SET_AUCTION ->
     exists l a, params o = [PAuction l] /\ σ !! l = None /\
                 σ' = <[l := a]> σ).
Proof.
  intros H. unfold Op.fromReader, Auction.alloc in H.
  unfold types.SET_AUCTION, types.SET_OWNER, types.SET_REVOKE,
    types.SET_DATA, types.SET_RENEWAL, types.SET_CLAIMED in *.
  repeat inv_read H.
  all: cbn [mbind result_bind] in H; cbv beta iota zeta in H;
    try discriminate H; injection H as <- <- <-.
  all: repeat match goal with
         | E : (_ =? _) = true |- _ => apply Z.eqb_eq in E
         | E : (_ =? _) = false |- _ => apply Z.eqb_neq in E
         end.
  all: cbn [type params]; subst.
  all: split; [lia|]; split; [|split].
  all: first
    [ solve [intros l _; reflexivity]
    | solve [intros l [b Hb]; rewrite lookup_insert_ne;
             [reflexivity | apply (fresh_not_live _ _ _ Hb)]]
    | solve [intros _; reflexivity]
    | solve [intros Hc; congruence]
    | solve [intros Hc; lia]
    | solve [intros _; eexists _, _;
             split; [reflexivity|]; split; [apply fresh_lookup | reflexivity]] ].
Qed.

Lemma stable_Op_fromReader (p r ext : bytes) (σ σ' : store) (o : op) :
  Op.fromReader p σ = Ok (o, r, σ') ->
  Op.fromReader (p ++ ext) σ = Ok (o, r ++ ext, σ').
Proof.
  intros H. unfold Op.fromReader, Auction.alloc in *.
  repeat inv_read H.
  all: cbn [mbind result_bind] in H; cbv beta iota zeta in H;
    try discriminate H; injection H as <- <- <-.
  all: repeat ext_read_op; reflexivity.
Qed.

(** X18. What [Op.fromReader] returns does not depend on the bytes that
    follow the ones it reads, which it leaves in the reader; so
    [Op.fromRaw] gives the same operation and store when bytes are appended
    to an input that decodes. *)
Theorem Op_decode_ignores_tail (p r ext : bytes) (σ σ' : store) (o : op) :
  Op.fromReader p σ = Ok (o, r, σ') ->
  Op.fromReader (p ++ ext) σ = Ok (o, r ++ ext, σ') /\
  Op.fromRaw (p ++ ext) σ = Ok (o, σ') /\
  Op.fromRaw p σ = Ok (o, σ').
Proof.
  intros H. pose proof (stable_Op_fromReader _ _ ext _ _ _ H) as He.
  split; [exact He|].
  unfold Op.fromRaw, Bio.read. rewrite He, H. split; reflexivity.
Qed.

(** X19. A truncated operation never decodes: when [toRaw] of an operation
    with a payload of the data model is cut short by at least one byte,
    [fromRaw] of what is left fails, in whatever store it runs. *)
Theorem Op_truncated_fails (σ σ' : store) (o : op) (raw p q : bytes) :
  op_wf σ o ->
  Op.toRaw σ o = Ok raw -> raw = p ++ q -> q <> [] ->
  exists e, Op.fromRaw p σ' = Err e.
Proof.
  intros Hwf Hraw -> Hq.
  destruct (Op_codec σ o Hwf) as (bs & Hw & Hs & Hrd).
  rewrite (Op_toRaw_bytes σ o bs Hw Hs) in Hraw. injection Hraw as Hb.
  unfold Op.fromRaw, Bio.read.
  destruct (Op.fromReader p σ') as [[[o' r] σ'']|e] eqn:E.
  - exfalso. apply (stable_Op_fromReader _ _ q) in E.
    rewrite <- Hb in E.
    destruct (Hrd [] σ') as (o2 & σ2 & Hfull & _).
    rewrite app_nil_r in Hfull. rewrite Hfull in E.
    injection E as _ Hnil _. symmetry in Hnil.
    apply app_eq_nil in Hnil as [_ Hnil]. contradiction.
  - exists e. reflexivity.
Qed.

End OpDecoder.

(** ** Calls with arguments of the data model *)

Section WellFormedCalls.
Variable this : loc.

Lemma op_wf_store (σ σ' : store) (o : op) :
  op_wf σ o ->
  (forall l a, σ !! l = Some a -> auction_wf a ->
     exists a', σ' !! l = Some a' /\ auction_wf a') ->
  op_wf σ' o.
Proof.
  intros Hwf Hst. destruct Hwf as [l a Hl Ha | | | | |]; try now constructor.
  destruct (Hst l a Hl Ha) as (a' & Hl' & Ha').
  now apply (wf_SET_AUCTION σ' l a').
Qed.

Lemma after_wf (c : call) (copy : loc) (r : auction) :
  auction_wf r -> call_wf c -> auction_wf (after c this copy r).
Proof.
  intros [Hn Ho Hv Hnull Hr Hd Hh Hre] Hc.
  destruct c as [n h | o v | o | d | n | b]; cbn [call_wf] in Hc;
    constructor;
    cbn [after name owner value revoke data height renewal];
    try assumption; try tauto; try lia;
    try apply Outpoint_new_wf; try (intros; reflexivity);
    try (intros d' Hd'; discriminate Hd').
Qed.

Lemma snapshot_wf (n : bytes) (r : auction) :
  auction_wf r -> (length n <= 255)%nat -> auction_wf (snapshot n r).
Proof. intros [Hn Ho Hv Hnull Hr Hd Hh Hre] Hlen. now constructor. Qed.

(** One call: the record stays in the data model, the entries it had stay
    well-formed, and the entries the call logs are well-formed. *)
Lemma exec_wf (c : call) (r : auction) (σ : store) :
  σ !! this = Some r -> auction_wf r -> call_wf c ->
  Forall (op_wf σ) (ops r) -> Forall (op_wf σ) (undo r) ->
  exists r',
    exec this c σ !! this = Some r' /\ auction_wf r' /\
    Forall (op_wf (exec this c σ)) (ops r') /\
    Forall (op_wf (exec this c σ)) (undo r').
Proof.
  intros Hr Hwf Hc Hops Hundo.
  pose proof (exec_this this c r σ Hr) as Hthis.
  set (copy := fresh (dom σ)) in *.
  pose proof (after_wf c copy r Hwf Hc) as Hafter.
  assert (Hst : forall l a, σ !! l = Some a -> auction_wf a ->
                  exists a', exec this c σ !! l = Some a' /\ auction_wf a').
  { intros l a Hl Ha. destruct (decide (l = this)) as [->|Hne].
    - eauto.
    - exists a. split; [|exact Ha].
      rewrite (exec_frame this c r) by eauto. exact Hl. }
  assert (Hcopy : forall n h, c = CallSetAuction n h ->
                    exec this c σ !! copy = Some (snapshot n r)).
  { intros n h ->. apply (exec_copy this n h r σ Hr). }
  (* from here on the store after the call is any store with these facts *)
  remember (exec this c σ) as σ' eqn:Eσ. clear Eσ.
  exists (after c this copy r).
  split; [exact Hthis|]. split; [exact Hafter|].
  rewrite ops_after, undo_after, !Forall_app.
  split; (split; [eapply Forall_impl; [eassumption|];
                  intros o Ho; apply (op_wf_store σ); assumption |]).
  - (* the entries pushed on [ops] *)
    assert (Hlive : op_wf σ' (mkOp types.SET_AUCTION [PAuction this]))
      by (apply (wf_SET_AUCTION _ this (after c this copy r));
          [exact Hthis | exact Hafter]).
    destruct c as [n h | o v | o | d | n | b]; cbn [call_wf] in Hc;
      cbn [ops_of].
    + destruct (data r); cbn [app].
      * apply List.Forall_cons; [|apply List.Forall_cons; [exact Hlive|apply List.Forall_nil]].
        apply wf_SET_DATA. intros bs Hbs. discriminate Hbs.
      * apply List.Forall_cons; [exact Hlive|apply List.Forall_nil].
    + destruct Hc as (Hco & Hcv & Hcn).
      apply List.Forall_cons; [|apply List.Forall_nil]. apply wf_SET_OWNER; assumption.
    + apply List.Forall_cons; [|apply List.Forall_nil]. apply wf_SET_REVOKE; assumption.
    + apply List.Forall_cons; [|apply List.Forall_nil]. apply wf_SET_DATA; assumption.
    + apply List.Forall_cons; [|apply List.Forall_nil]. apply wf_SET_RENEWAL; assumption.
    + apply List.Forall_cons; [|apply List.Forall_nil]. apply wf_SET_CLAIMED.
  - (* the entries pushed on [undo] *)
    destruct Hwf as [Hn Ho Hv Hnull Hrv Hd Hh Hre].
    destruct c as [n h | o v | o | d | n | b]; cbn [call_wf] in Hc;
      cbn [undo_of].
    + assert (Hsnap : op_wf σ' (mkOp types.SET_AUCTION [PAuction copy])).
      { apply (wf_SET_AUCTION _ copy (snapshot n r)).
        - apply (Hcopy n h eq_refl).
        - apply snapshot_wf; [constructor; assumption | apply Hc]. }
      destruct (data r) as [d|] eqn:Ed; cbn [app].
      * apply List.Forall_cons; [|apply List.Forall_cons; [exact Hsnap|apply List.Forall_nil]].
        apply wf_SET_DATA. intros bs [= <-]. apply Hd. reflexivity.
      * apply List.Forall_cons; [exact Hsnap|apply List.Forall_nil].
    + apply List.Forall_cons; [|apply List.Forall_nil]. apply wf_SET_OWNER; assumption.
    + apply List.Forall_cons; [|apply List.Forall_nil]. apply wf_SET_REVOKE; assumption.
    + apply List.Forall_cons; [|apply List.Forall_nil]. apply wf_SET_DATA; assumption.
    + apply List.Forall_cons; [|apply List.Forall_nil]. apply wf_SET_RENEWAL; assumption.
    + apply List.Forall_cons; [|apply List.Forall_nil]. apply wf_SET_CLAIMED.
Qed.

Lemma run_wf (cs : list call) :
  forall (σ : store) (r : auction),
    σ !! this = Some r -> auction_wf r -> Forall call_wf cs ->
    Forall (op_wf σ) (ops r) -> Forall (op_wf σ) (undo r) ->
    exists r',
      run this cs σ !! this = Some r' /\ auction_wf r' /\
      Forall (op_wf (run this cs σ)) (ops r') /\
      Forall (op_wf (run this cs σ)) (undo r').
Proof.
  induction cs as [|c cs IH]; intros σ r Hr Hwf Hcs Hops Hundo.
  - exists r. cbn. auto.
  - rewrite run_cons. inversion Hcs as [|c' cs' Hc Hcs']; subst.
    destruct (exec_wf c r σ Hr Hwf Hc Hops Hundo)
      as (r1 & H1 & Hwf1 & Hops1 & Hundo1).
    exact (IH _ _ H1 Hwf1 Hcs' Hops1 Hundo1).
Qed.

(** X20. Mutator calls whose arguments are values of the data model keep a
    record of the data model in the data model, and keep both logs
    encodable: after any sequence of such calls, every entry of [ops] and of
    [undo] is one of the six variants with a payload of the data model, and
    [Op.toRaw] succeeds on it. *)
Theorem wf_calls_keep_logs_encodable (cs : list call) (r : auction)
    (σ : store) :
  σ !! this = Some r -> auction_wf r -> Forall call_wf cs ->
  Forall (op_wf σ) (ops r) -> Forall (op_wf σ) (undo r) ->
  exists r',
    run this cs σ !! this = Some r' /\ auction_wf r' /\
    Forall (op_wf (run this cs σ)) (ops r' ++ undo r') /\
    Forall (fun o => exists raw, Op.toRaw (run this cs σ) o = Ok raw)
           (ops r' ++ undo r').
Proof.
  intros Hr Hwf Hcs Hops Hundo.
  destruct (run_wf cs σ r Hr Hwf Hcs Hops Hundo)
    as (r' & Hl & Hwf' & Hops' & Hundo').
  exists r'. split; [exact Hl|]. split; [exact Hwf'|].
  assert (Hall : Forall (op_wf (run this cs σ)) (ops r' ++ undo r'))
    by (apply Forall_app; auto).
  split; [exact Hall|].
  eapply Forall_impl; [exact Hall|].
  intros o Ho. destruct (Op_codec _ o Ho) as (bs & Hw & Hs & _).
  exists bs. now apply Op_toRaw_bytes.
Qed.

End WellFormedCalls.

(** ** Copies and canonical records *)

Section CopiesAndCanonical.

(** X21. [inject] copies the name, the nameHash and the seven other fields
    of another record into the record and keeps the logs of the record;
    [clone] stores such a copy of the record at a location that was free,
    with empty logs, and returns that location. Neither changes any other
    object, and [clone] leaves the record itself as it was. *)
Theorem clone_inject_spec (this src : loc) (r s : auction) (σ : store) :
  σ !! this = Some r -> σ !! src = Some s -> this <> src ->
  (exists r',
      Auction.inject this src σ !! this = Some r' /\
      persisted r' = persisted s /\ nameHash r' = nameHash s /\
      ops r' = ops r /\ undo r' = undo r /\
      (forall l, l <> this -> Auction.inject this src σ !! l = σ !! l)) /\
  (exists c,
      σ !! fst (Auction.clone this σ) = None /\
      snd (Auction.clone this σ) !! fst (Auction.clone this σ) = Some c /\
      persisted c = persisted r /\ nameHash c = nameHash r /\
      ops c = [] /\ undo c = [] /\
      (forall l, is_Some (σ !! l) ->
         snd (Auction.clone this σ) !! l = σ !! l)).
Proof.
  intros Hr Hs Hne. split.
  - rewrite (inject_eq this src r s σ Hne Hr Hs).
    eexists. split; [apply lookup_insert_eq|].
    repeat (split; [reflexivity|]).
    intros l Hl. now rewrite lookup_insert_ne by congruence.
  - rewrite (clone_eq this r σ Hr). cbn [fst snd].
    exists (snapshot (name r) r).
    split; [apply fresh_lookup|]. split; [apply lookup_insert_eq|].
    repeat (split; [reflexivity|]).
    intros l [b Hb]. rewrite lookup_insert_ne; [reflexivity|].
    apply (fresh_not_live _ _ _ Hb).
Qed.

(** X22. A record that [Auction.fromReader] returns, with value zero if its
    owner is null, is in canonical form: [toRaw] succeeds on it and
    [fromRaw] of the result gives back the very same record, logs and
    nameHash included. *)
Theorem decoded_record_is_canonical (br br' : bytes) (a : auction) :
  Auction.fromReader br = Ok (a, br') ->
  (Outpoint.isNull (owner a) = true -> value a = 0) ->
  exists raw, Auction.toRaw a = Ok raw /\ Auction.fromRaw raw = Ok a.
Proof.
  intros H Hnull.
  destruct (Auction_fromReader_fields br br' a H)
    as (Hn & Ho & Hv & Hr & Hd & Hh & Hre & Hnh & Hops & Hundo).
  assert (Hwf : auction_wf a) by now constructor.
  exists (auction_bytes a).
  split; [now apply Auction_toRaw_bytes|].
  unfold Auction.fromRaw, Bio.read.
  rewrite <- (app_nil_r (auction_bytes a)).
  rewrite (Auction_fromReader_bytes a [] Hwf). cbn [mbind result_bind].
  f_equal. unfold decoded. destruct a. cbn in *. now subst.
Qed.

End CopiesAndCanonical.

(* ================================================================== *)
(** * The further properties on the sample data *)

Lemma example_store2_live : example_store2 !! 1%positive = Some example_record.
Proof. vm_compute. reflexivity. Defined.

Lemma example_store_live : example_store !! 1%positive = Some Auction.new.
Proof. vm_compute. reflexivity. Defined.

Lemma example_store3_live :
  example_store3 !! 1%positive = Some Auction.new /\
  example_store3 !! 2%positive = Some example_record.
Proof. split; vm_compute; reflexivity. Defined.

Lemma example_record_logged_wf : auction_wf example_record_logged.
Proof.
  destruct example_record_wf as [Hn Ho Hv Hnull Hr Hd Hh Hre].
  constructor; assumption.
Defined.

Lemma example_calls_wf : Forall call_wf example_calls.
Proof.
  apply List.Forall_cons; [|apply List.Forall_cons; [|apply List.Forall_nil]].
  - split; [cbn; lia | lia].
  - split; [exact outpointA_wf|]. split; [lia|].
    intros E. vm_compute in E. discriminate E.
Defined.

Lemma example_read :
  Auction.fromReader (auction_bytes example_record)
  = Ok (decoded example_record, []).
Proof. vm_compute. reflexivity. Defined.

Lemma setNull_spec_witness :
  example_store2 !! 1%positive = Some example_record /\
  exists r',
    Auction.setNull 1%positive example_store2 !! 1%positive = Some r' /\
    Auction.isNull r' = true /\ name r' = name example_record.
Proof.
  split; [exact example_store2_live|].
  destruct (setNull_spec 1%positive example_record example_store2
              example_store2_live) as (r' & Hl & Hnull & Hn & _).
  exists r'. repeat split; assumption.
Defined.

Lemma isExpired_mono_witness :
  Auction.isExpired example_rules example_record 200 = true /\
  200 <= 300 /\
  Auction.isExpired example_rules example_record 300 = true.
Proof.
  assert (H : Auction.isExpired example_rules example_record 200 = true)
    by (vm_compute; reflexivity).
  assert (Hle : 200 <= 300) by lia.
  split; [exact H|]. split; [exact Hle|].
  exact (proj2 (isExpired_mono example_rules example_record 200 300 H Hle)).
Defined.

Lemma setters_spec_witness :
  example_store2 !! 1%positive = Some example_record /\
  persisted (Auction.setRenewal 1%positive 150 example_store2 !!! 1%positive)
  = (name example_record, owner example_record, value example_record,
     revoke example_record, data example_record, height example_record,
     150, claimed example_record).
Proof.
  split; [exact example_store2_live|].
  destruct (setters_spec 1%positive example_record example_store2
              example_store2_live) as (_ & _ & _ & Hren & _).
  destruct (Hren 150) as (_ & _ & Hp). exact Hp.
Defined.

Lemma setAuction_resets_witness :
  example_store2 !! 1%positive = Some example_record /\
  reversible (Auction.setAuction 1%positive example_name 300 example_store2
              !!! 1%positive)
  = (Outpoint.new, 0, Outpoint.new, None, 300, 300, false).
Proof.
  split; [exact example_store2_live|].
  destruct (setAuction_resets 1%positive example_name 300 example_record
              example_store2 example_store2_live) as (_ & _ & Hrev & _).
  exact Hrev.
Defined.

Lemma setAuction_new_cycle_witness :
  example_store2 !! 1%positive = Some example_record /\
  0 < BIDDING_PERIOD example_rules /\
  Auction.isBidding example_rules
    (Auction.setAuction 1%positive example_name 300 example_store2
     !!! 1%positive) 300 = true.
Proof.
  assert (HB : 0 < BIDDING_PERIOD example_rules) by (cbn; lia).
  split; [exact example_store2_live|]. split; [exact HB|].
  destruct (setAuction_new_cycle 1%positive example_rules example_name 300 300
              example_record example_store2 example_store2_live)
    as (_ & Hbid & _).
  exact (Hbid HB).
Defined.

Lemma logs_grow_in_step_witness :
  example_store !! 1%positive = Some Auction.new /\
  exists os us : list op,
    ops (run 1%positive example_calls example_store !!! 1%positive)
    = ops Auction.new ++ os /\
    undo (run 1%positive example_calls example_store !!! 1%positive)
    = undo Auction.new ++ us /\
    map type os = map type us.
Proof.
  split; [exact example_store_live|].
  exact (logs_grow_in_step 1%positive example_calls Auction.new example_store
           example_store_live).
Defined.

Lemma mutators_frame_witness :
  example_store3 !! 1%positive = Some Auction.new /\
  2%positive <> 1%positive /\
  is_Some (example_store3 !! 2%positive) /\
  run 1%positive example_calls example_store3 !! 2%positive
  = example_store3 !! 2%positive.
Proof.
  destruct example_store3_live as [H1 H2].
  assert (Hne : 2%positive <> 1%positive) by (intros E; discriminate E).
  assert (Hs : is_Some (example_store3 !! 2%positive))
    by (exists example_record; exact H2).
  split; [exact H1|]. split; [exact Hne|]. split; [exact Hs|].
  destruct (mutators_frame 1%positive example_calls Auction.new example_store3
              H1) as (Hfr & _).
  exact (Hfr 2%positive Hne Hs).
Defined.

Lemma forward_entry_is_live_witness :
  example_store !! 1%positive = Some Auction.new /\
  exists r2 : auction,
    run 1%positive [CallSetOwner outpointA 5000]
      (Auction.setAuction 1%positive example_name 100 example_store)
    !! 1%positive = Some r2 /\
    forall bw,
      Op.toWriter
        (run 1%positive [CallSetOwner outpointA 5000]
           (Auction.setAuction 1%positive example_name 100 example_store))
        (mkOp types.SET_AUCTION [PAuction 1%positive]) bw
      = Ok (Auction.toWriter r2 (Bio.writeU8 0 bw)).
Proof.
  split; [exact example_store_live|].
  destruct (forward_entry_is_live 1%positive example_name 100
              [CallSetOwner outpointA 5000] Auction.new example_store
              example_store_live) as (copy & r2 & _ & _ & Hl & Hw & _).
  exists r2. split; [exact Hl | exact Hw].
Defined.

Lemma Op_encode_bad_type_witness :
  ~ (0 <= type (mkOp 6 []) <= 5) /\
  Op.toRaw ∅ (mkOp 6 []) = Err BadOpType.
Proof.
  assert (H : ~ (0 <= type (mkOp 6 []) <= 5)) by (cbn; lia).
  split; [exact H|].
  destruct (Op_encode_bad_type ∅ (mkOp 6 []) (Bio.write 0) H) as (_ & _ & Hr).
  exact Hr.
Defined.

Lemma Op_fromReader_absent_witness :
  Z_of_byte Byte.x02 <> 1 /\
  Op.fromReader [Byte.x03; Byte.x02; Byte.xff] ∅
  = Ok (mkOp types.SET_DATA [PData None], [Byte.xff], ∅).
Proof.
  assert (H : Z_of_byte Byte.x02 <> 1)
    by (change (Z_of_byte Byte.x02) with 2; lia).
  split; [exact H|].
  destruct (Op_fromReader_absent Byte.x02 [Byte.xff] ∅ H) as (_ & _ & Hd & _).
  exact Hd.
Defined.

Lemma Auction_fromReader_range_witness :
  Auction.fromReader (auction_bytes example_record)
  = Ok (decoded example_record, []) /\
  (length (name (decoded example_record)) <= 255)%nat /\
  Outpoint.wf (owner (decoded example_record)).
Proof.
  split; [exact example_read|].
  destruct (Auction_fromReader_range _ _ _ example_read) as (Hn & Ho & _).
  split; [exact Hn | exact Ho].
Defined.

Lemma Auction_decode_ignores_tail_witness :
  Auction.fromReader (auction_bytes example_record)
  = Ok (decoded example_record, []) /\
  Auction.fromRaw (auction_bytes example_record ++ [Byte.xff; Byte.x00])
  = Ok (decoded example_record).
Proof.
  split; [exact example_read|].
  destruct (Auction_decode_ignores_tail _ [Byte.xff; Byte.x00] _ _ example_read)
    as (_ & Hraw & _).
  exact Hraw.
Defined.

Lemma Auction_truncated_fails_witness :
  auction_wf example_record /\
  Auction.toRaw example_record = Ok (auction_bytes example_record) /\
  auction_bytes example_record
  = take 20 (auction_bytes example_record)
    ++ drop 20 (auction_bytes example_record) /\
  drop 20 (auction_bytes example_record) <> [] /\
  exists e, Auction.fromRaw (take 20 (auction_bytes example_record)) = Err e.
Proof.
  assert (Hraw : Auction.toRaw example_record
                 = Ok (auction_bytes example_record))
    by (vm_compute; reflexivity).
  assert (Hsplit : auction_bytes example_record
                   = take 20 (auction_bytes example_record)
                     ++ drop 20 (auction_bytes example_record))
    by (vm_compute; reflexivity).
  assert (Hq : drop 20 (auction_bytes example_record) <> [])
    by (vm_compute; intros E; discriminate E).
  split; [exact example_record_wf|]. split; [exact Hraw|].
  split; [exact Hsplit|]. split; [exact Hq|].
  exact (Auction_truncated_fails example_record _ _ _
           example_record_wf Hraw Hsplit Hq).
Defined.

Lemma Auction_toRaw_injective_witness :
  auction_wf example_record /\ auction_wf example_record_logged /\
  Auction.toRaw example_record = Ok (auction_bytes example_record) /\
  Auction.toRaw example_record_logged = Ok (auction_bytes example_record) /\
  persisted example_record = persisted example_record_logged.
Proof.
  assert (Ha : Auction.toRaw example_record
               = Ok (auction_bytes example_record))
    by (vm_compute; reflexivity).
  assert (Hb : Auction.toRaw example_record_logged
               = Ok (auction_bytes example_record))
    by (vm_compute; reflexivity).
  split; [exact example_record_wf|].
  split; [exact example_record_logged_wf|].
  split; [exact Ha|]. split; [exact Hb|].
  exact (Auction_toRaw_injective _ _ _ example_record_wf
           example_record_logged_wf Ha Hb).
Defined.

Lemma Op_fromReader_store_witness :
  Op.fromReader (Bio.encodeLE 1 0 ++ auction_bytes example_record)
    example_store
  = Ok (mkOp 0 [PAuction 2%positive], [],
        <[ 2%positive := decoded example_record ]> example_store) /\
  <[ 2%positive := decoded example_record ]> example_store !! 1%positive
  = example_store !! 1%positive.
Proof.
  assert (H : Op.fromReader (Bio.encodeLE 1 0 ++ auction_bytes example_record)
                example_store
              = Ok (mkOp 0 [PAuction 2%positive], [],
                    <[ 2%positive := decoded example_record ]> example_store))
    by (vm_compute; reflexivity).
  split; [exact H|].
  destruct (Op_fromReader_store _ _ _ _ _ H) as (_ & Hfr & _).
  apply Hfr. exists Auction.new. exact example_store_live.
Defined.

Lemma Op_decode_ignores_tail_witness :
  Op.fromReader example_op_raw ∅ = Ok (example_op, [], ∅) /\
  Op.fromRaw (example_op_raw ++ [Byte.x07]) ∅ = Ok (example_op, ∅).
Proof.
  assert (H : Op.fromReader example_op_raw ∅ = Ok (example_op, [], ∅))
    by (vm_compute; reflexivity).
  split; [exact H|].
  destruct (Op_decode_ignores_tail _ _ [Byte.x07] _ _ _ H) as (_ & Hraw & _).
  exact Hraw.
Defined.

Lemma example_op_wf : op_wf ∅ example_op.
Proof.
  apply wf_SET_OWNER.
  - exact outpointA_wf.
  - lia.
  - intros E. vm_compute in E. discriminate E.
Defined.

Lemma Op_truncated_fails_witness :
  op_wf ∅ example_op /\
  Op.toRaw ∅ example_op = Ok example_op_raw /\
  example_op_raw = take 5 example_op_raw ++ drop 5 example_op_raw /\
  drop 5 example_op_raw <> [] /\
  exists e, Op.fromRaw (take 5 example_op_raw) example_store = Err e.
Proof.
  assert (Hraw : Op.toRaw ∅ example_op = Ok example_op_raw)
    by (vm_compute; reflexivity).
  assert (Hsplit : example_op_raw
                   = take 5 example_op_raw ++ drop 5 example_op_raw)
    by (vm_compute; reflexivity).
  assert (Hq : drop 5 example_op_raw <> [])
    by (vm_compute; intros E; discriminate E).
  split; [exact example_op_wf|]. split; [exact Hraw|].
  split; [exact Hsplit|]. split; [exact Hq|].
  exact (Op_truncated_fails ∅ example_store example_op _ _ _
           example_op_wf Hraw Hsplit Hq).
Defined.

Lemma wf_calls_keep_logs_encodable_witness :
  example_store !! 1%positive = Some Auction.new /\
  auction_wf Auction.new /\ Forall call_wf example_calls /\
  Forall (op_wf example_store) (ops Auction.new) /\
  Forall (op_wf example_store) (undo Auction.new) /\
  exists r',
    run 1%positive example_calls example_store !! 1%positive = Some r' /\
    auction_wf r' /\
    Forall (fun o => exists raw,
              Op.toRaw (run 1%positive example_calls example_store) o = Ok raw)
           (ops r' ++ undo r').
Proof.
  assert (Hnil : Forall (op_wf example_store) []) by apply List.Forall_nil.
  split; [exact example_store_live|]. split; [exact new_wf|].
  split; [exact example_calls_wf|]. split; [exact Hnil|]. split; [exact Hnil|].
  destruct (wf_calls_keep_logs_encodable 1%positive example_calls Auction.new
              example_store example_store_live new_wf example_calls_wf
              Hnil Hnil) as (r' & Hl & Hwf & _ & Henc).
  exists r'. split; [exact Hl|]. split; [exact Hwf | exact Henc].
Defined.

Lemma clone_inject_spec_witness :
  example_store3 !! 1%positive = Some Auction.new /\
  example_store3 !! 2%positive = Some example_record /\
  1%positive <> 2%positive /\
  exists r',
    Auction.inject 1%positive 2%positive example_store3 !! 1%positive
    = Some r' /\
    persisted r' = persisted example_record.
Proof.
  destruct example_store3_live as [H1 H2].
  assert (Hne : 1%positive <> 2%positive) by (intros E; discriminate E).
  split; [exact H1|]. split; [exact H2|]. split; [exact Hne|].
  destruct (clone_inject_spec 1%positive 2%positive Auction.new example_record
              example_store3 H1 H2 Hne) as ((r' & Hl & Hp & _) & _).
  exists r'. split; [exact Hl | exact Hp].
Defined.

Lemma decoded_record_is_canonical_witness :
  Auction.fromReader (auction_bytes example_record)
  = Ok (decoded example_record, []) /\
  (Outpoint.isNull (owner (decoded example_record)) = true ->
   value (decoded example_record) = 0) /\
  exists raw,
    Auction.toRaw (decoded example_record) = Ok raw /\
    Auction.fromRaw raw = Ok (decoded example_record).
Proof.
  assert (Hnull : Outpoint.isNull (owner (decoded example_record)) = true ->
                  value (decoded example_record) = 0)
    by (intros E; vm_compute in E; discriminate E).
  split; [exact example_read|]. split; [exact Hnull|].
  exact (decoded_record_is_canonical _ _ _ example_read Hnull).
Defined.
